(** * PVRouter-1-phase: the build-metadata injector

    A shallow embedding of [Mk2_fasterControl_Full/inject_sketch_name.py],
    the PlatformIO pre-build hook that registers the four preprocessor
    definitions [PROJECT_PATH], [CURRENT_TIME], [BRANCH_NAME] and
    [COMMIT_HASH], together with the parts of the Python runtime the script
    calls ([str.strip], [bytes.decode], [posixpath], [datetime],
    [subprocess.check_output]) and the properties the specification states
    about it. *)

From Stdlib Require Import ZArith Lia List Bool.
From Stdlib.Strings Require Import Ascii String Byte.
From stdpp Require Import base option list gmap strings.

Local Open Scope Z_scope.
Local Open Scope list_scope.

(** ** Python values: [str] and [bytes] *)

(** A Python [str] is a sequence of Unicode code points, [bytes] a sequence
    of octets. *)
Definition str : Type := list Z.
Definition bytes : Type := list byte.

Definition byte_val (b : byte) : Z := Z.of_N (Byte.to_N b).

(** An ASCII literal of the source, as a [str] and as [bytes]. *)
Definition lit (s : string) : str :=
  List.map (fun a => Z.of_N (N_of_ascii a)) (list_ascii_of_string s).

Definition blit (s : string) : bytes := list_byte_of_string s.

(** The double quote that the f-strings of the script put around a value. *)
Definition dquote : Z := 34.

Definition quoted (s : str) : str := dquote :: s ++ [dquote].

(** *** [str.isspace] and [str.strip]

    [str.strip()] without argument removes the code points for which
    [Py_UNICODE_ISSPACE] holds. *)
Definition isspace (c : Z) : bool :=
  ((9 <=? c) && (c <=? 13)) || ((28 <=? c) && (c <=? 32))
  || (c =? 133) || (c =? 160) || (c =? 5760)
  || ((8192 <=? c) && (c <=? 8202))
  || (c =? 8232) || (c =? 8233) || (c =? 8239) || (c =? 8287)
  || (c =? 12288).

Fixpoint lstrip_by (f : Z -> bool) (s : str) : str :=
  match s with
  | [] => []
  | c :: r => if f c then lstrip_by f r else s
  end.

Definition rstrip_by (f : Z -> bool) (s : str) : str :=
  rev (lstrip_by f (rev s)).

Definition strip (s : str) : str := rstrip_by isspace (lstrip_by isspace s).

(** *** [bytes.decode('utf-8')]

    Strict UTF-8 decoding: [None] stands for [UnicodeDecodeError] (a stray
    continuation byte, a truncated or overlong sequence, a surrogate, or a
    code point above U+10FFFF). *)
Definition is_cont (x : Z) : bool := (128 <=? x) && (x <=? 191).

Definition second_ok3 (x0 x1 : Z) : bool :=
  if x0 =? 224 then (160 <=? x1) && (x1 <=? 191)
  else if x0 =? 237 then (128 <=? x1) && (x1 <=? 159)
  else is_cont x1.

Definition second_ok4 (x0 x1 : Z) : bool :=
  if x0 =? 240 then (144 <=? x1) && (x1 <=? 191)
  else if x0 =? 244 then (128 <=? x1) && (x1 <=? 143)
  else is_cont x1.

Definition cp2 (x0 x1 : Z) : Z :=
  Z.lor (Z.shiftl (Z.land x0 31) 6) (Z.land x1 63).

Definition cp3 (x0 x1 x2 : Z) : Z :=
  Z.lor (Z.shiftl (Z.land x0 15) 12)
        (Z.lor (Z.shiftl (Z.land x1 63) 6) (Z.land x2 63)).

Definition cp4 (x0 x1 x2 x3 : Z) : Z :=
  Z.lor (Z.shiftl (Z.land x0 7) 18)
        (Z.lor (Z.shiftl (Z.land x1 63) 12)
               (Z.lor (Z.shiftl (Z.land x2 63) 6) (Z.land x3 63))).

Definition push (c : Z) (o : option str) : option str :=
  match o with Some s => Some (c :: s) | None => None end.

Fixpoint utf8_decode (bs : bytes) : option str :=
  match bs with
  | [] => Some []
  | b0 :: r0 =>
      let x0 := byte_val b0 in
      if x0 <? 128 then push x0 (utf8_decode r0)
      else if (194 <=? x0) && (x0 <=? 223) then
        match r0 with
        | b1 :: r1 =>
            let x1 := byte_val b1 in
            if is_cont x1 then push (cp2 x0 x1) (utf8_decode r1) else None
        | _ => None
        end
      else if (224 <=? x0) && (x0 <=? 239) then
        match r0 with
        | b1 :: b2 :: r2 =>
            let x1 := byte_val b1 in
            let x2 := byte_val b2 in
            if second_ok3 x0 x1 && is_cont x2
            then push (cp3 x0 x1 x2) (utf8_decode r2) else None
        | _ => None
        end
      else if (240 <=? x0) && (x0 <=? 244) then
        match r0 with
        | b1 :: b2 :: b3 :: r3 =>
            let x1 := byte_val b1 in
            let x2 := byte_val b2 in
            let x3 := byte_val b3 in
            if second_ok4 x0 x1 && is_cont x2 && is_cont x3
            then push (cp4 x0 x1 x2 x3) (utf8_decode r3) else None
        | _ => None
        end
      else None
  end.

(** ** [os.path] (the [posixpath] flavour) *)

Module posixpath.

Definition sep : Z := 47.

Definition is_sep (c : Z) : bool := c =? sep.

Definition startswith_sep (b : str) : bool :=
  match b with c :: _ => is_sep c | [] => false end.

Definition endswith_sep (p : str) : bool :=
  match last p with Some c => is_sep c | None => false end.

(** [posixpath.join(a, b)] for one extra component. *)
Definition join (a b : str) : str :=
  if startswith_sep b then b
  else if bool_decide (a = []) || endswith_sep a then a ++ b
  else a ++ sep :: b.

(** [p.rfind(sep)]: the highest index holding [sep], or [-1]. *)
Fixpoint rfind (p : str) : Z :=
  match p with
  | [] => -1
  | c :: r =>
      let k := rfind r in
      if 0 <=? k then k + 1 else if is_sep c then 0 else -1
  end.

(** The shared head computation of [split] and [dirname]:
    [if head and head != sep*len(head): head = head.rstrip(sep)]. *)
Definition trim_head (head : str) : str :=
  if negb (bool_decide (head = []))
     && negb (bool_decide (head = replicate (length head) sep))
  then rstrip_by is_sep head else head.

Definition split (p : str) : str * str :=
  let i := Z.to_nat (rfind p + 1) in
  (trim_head (take i p), drop i p).

Definition dirname (p : str) : str :=
  let i := Z.to_nat (rfind p + 1) in
  trim_head (take i p).

End posixpath.

(** ** [datetime] *)

(** A [datetime] value: the calendar fields, and the UTC offset in seconds
    of its fixed-offset [tzinfo] ([None] for a naive value). *)
Record datetime : Type := mk_datetime {
  year : Z; month : Z; day : Z;
  hour : Z; minute : Z; second : Z; microsecond : Z;
  utcoffset : option Z
}.

Definition is_leap (y : Z) : bool :=
  (y mod 4 =? 0) && (negb (y mod 100 =? 0) || (y mod 400 =? 0)).

Definition days_in_month (y m : Z) : Z :=
  if m =? 2 then (if is_leap y then 29 else 28)
  else if (m =? 4) || (m =? 6) || (m =? 9) || (m =? 11) then 30
  else 31.

(** The range checks of the [datetime] constructor ([ValueError] otherwise). *)
Definition check_fields (y m d hh mi ss us : Z) : bool :=
  (1 <=? y) && (y <=? 9999) && (1 <=? m) && (m <=? 12)
  && (1 <=? d) && (d <=? days_in_month y m)
  && (0 <=? hh) && (hh <=? 23) && (0 <=? mi) && (mi <=? 59)
  && (0 <=? ss) && (ss <=? 59) && (0 <=? us) && (us <=? 999999).

(** The range check of [timezone(offset)]: strictly within one day. *)
Definition check_offset (off : Z) : bool := (-86400 <? off) && (off <? 86400).

Definition valid_naive (dt : datetime) : bool :=
  check_fields (year dt) (month dt) (day dt)
               (hour dt) (minute dt) (second dt) (microsecond dt)
  && bool_decide (utcoffset dt = None).

(** [dt.replace(microsecond=us)] *)
Definition replace_microsecond (dt : datetime) (us : Z) : datetime :=
  mk_datetime (year dt) (month dt) (day dt)
              (hour dt) (minute dt) (second dt) us (utcoffset dt).

(** [dt.astimezone()] on the naive local time that [datetime.now()] returned:
    the wall-clock fields are kept and the system's offset [gmtoff] at that
    time is attached as a fixed-offset time zone. *)
Definition astimezone (gmtoff : Z) (dt : datetime) : datetime :=
  mk_datetime (year dt) (month dt) (day dt)
              (hour dt) (minute dt) (second dt) (microsecond dt)
              (Some gmtoff).

(** *** Formatting: ["%0wd" % n] *)

Fixpoint digits_aux (fuel : nat) (n : Z) (acc : str) : str :=
  match fuel with
  | O => acc
  | S f =>
      let acc' := (48 + n mod 10) :: acc in
      if n / 10 =? 0 then acc' else digits_aux f (n / 10) acc'
  end.

Definition decimal (n : Z) : str :=
  digits_aux (S (Z.to_nat (Z.log2 n))) n [].

Definition zfill (w : nat) (s : str) : str :=
  replicate (w - length s)%nat 48 ++ s.

Definition fmt_d (w : nat) (n : Z) : str :=
  if n <? 0 then 45 :: zfill (w - 1) (decimal (- n)) else zfill w (decimal n).

(** [_format_time] with [timespec='auto']. *)
Definition format_time (hh mi ss us : Z) : str :=
  fmt_d 2 hh ++ 58 :: fmt_d 2 mi ++ 58 :: fmt_d 2 ss
  ++ (if us =? 0 then [] else 46 :: fmt_d 6 us).

(** [_format_offset] for a whole number of seconds. *)
Definition format_offset (off : option Z) : str :=
  match off with
  | None => []
  | Some o =>
      let sign := if o <? 0 then 45 else 43 in
      let a := Z.abs o in
      let hh := a / 3600 in
      let mm := (a mod 3600) / 60 in
      let ss := (a mod 3600) mod 60 in
      sign :: fmt_d 2 hh ++ 58 :: fmt_d 2 mm
      ++ (if ss =? 0 then [] else 58 :: fmt_d 2 ss)
  end.

(** [dt.isoformat(sep)] *)
Definition isoformat (dt : datetime) (sep : Z) : str :=
  fmt_d 4 (year dt) ++ 45 :: fmt_d 2 (month dt) ++ 45 :: fmt_d 2 (day dt)
  ++ sep :: format_time (hour dt) (minute dt) (second dt) (microsecond dt)
  ++ format_offset (utcoffset dt).

(** The character of a decimal digit. *)
Definition digit_char (d : Z) : Z := 48 + d.

(** *** Parsing: [datetime.fromisoformat] on the layout
    [YYYY-MM-DD?HH:MM:SS] followed by nothing or by [+HH:MM] or [+HH:MM:SS]
    (either sign); any single character separates date and time. *)
Definition digit_val (c : Z) : option Z :=
  if (48 <=? c) && (c <=? 57) then Some (c - 48) else None.

Definition two_digits (a b : Z) : option Z :=
  match digit_val a, digit_val b with
  | Some x, Some y => Some (10 * x + y)
  | _, _ => None
  end.

Definition four_digits (a b c d : Z) : option Z :=
  match two_digits a b, two_digits c d with
  | Some x, Some y => Some (100 * x + y)
  | _, _ => None
  end.

Definition parse_sign (c : Z) : option Z :=
  if c =? 43 then Some 1 else if c =? 45 then Some (-1) else None.

Definition parse_offset (s : str) : option (option Z) :=
  match s with
  | [] => Some None
  | sg :: h1 :: h2 :: c1 :: m1 :: m2 :: rest =>
      match parse_sign sg, two_digits h1 h2, two_digits m1 m2 with
      | Some k, Some hh, Some mm =>
          if negb (c1 =? 58) then None else
          match rest with
          | [] => Some (Some (k * (3600 * hh + 60 * mm)))
          | [c2; s1; s2] =>
              match two_digits s1 s2 with
              | Some ss =>
                  if c2 =? 58 then Some (Some (k * (3600 * hh + 60 * mm + ss)))
                  else None
              | None => None
              end
          | _ => None
          end
      | _, _, _ => None
      end
  | _ => None
  end.

Definition fromisoformat (s : str) : option datetime :=
  match s with
  | y1 :: y2 :: y3 :: y4 :: c1 :: m1 :: m2 :: c2 :: d1 :: d2 :: _ ::
    h1 :: h2 :: c3 :: i1 :: i2 :: c4 :: s1 :: s2 :: rest =>
      match four_digits y1 y2 y3 y4, two_digits m1 m2, two_digits d1 d2,
            two_digits h1 h2, two_digits i1 i2, two_digits s1 s2,
            parse_offset rest with
      | Some y, Some m, Some d, Some hh, Some mi, Some ss, Some off =>
          if (c1 =? 45) && (c2 =? 45) && (c3 =? 58) && (c4 =? 58)
             && check_fields y m d hh mi ss 0
             && match off with Some o => check_offset o | None => true end
          then Some (mk_datetime y m d hh mi ss 0 off)
          else None
      | _, _, _, _, _, _, _ => None
      end
  | _ => None
  end.

(** *** The instant a [datetime] denotes

    Microseconds since 0001-01-01T00:00:00 UTC, through the proleptic
    Gregorian ordinal of [_ymd2ord]; a naive value is read as UTC. *)
Definition days_before_year (y : Z) : Z :=
  let p := y - 1 in p * 365 + p / 4 - p / 100 + p / 400.

Fixpoint days_before_month_aux (y : Z) (k : nat) : Z :=
  match k with
  | O => 0
  | S j => days_before_month_aux y j + days_in_month y (Z.of_nat k)
  end.

Definition days_before_month (y m : Z) : Z :=
  days_before_month_aux y (Z.to_nat (m - 1)).

Definition ymd2ord (y m d : Z) : Z :=
  days_before_year y + days_before_month y m + d.


(** ** The build environment, the outside world and the effects *)

(** What a construction variable of the SCons environment may hold: a string
    (as [PROJECT_DIR] does under PlatformIO) or something that is not
    path-like. *)
Inductive value : Type :=
| VStr (s : str)
| VList (l : list str).

(** One entry of [CPPDEFINES]: a [(name, value)] tuple. *)
Definition define : Type := (str * str)%type.

(** The object that [Import] binds to [env]: its construction variables,
    and the list under [CPPDEFINES] apart. *)
Record Env : Type := mk_env {
  vars : gmap string value;
  CPPDEFINES : list define
}.

Inductive exn : Type :=
| KeyError (key : string)
| TypeError
| OSError
| UnicodeDecodeError
| CalledProcessError (returncode : Z) (output : bytes).

(** What starting a child process and waiting for it gives: [Popen] raises
    [OSError] when the process cannot be started, otherwise the child ends
    with a return code and the captured standard output. *)
Inductive popen_result : Type :=
| SpawnFailed
| Exited (returncode : Z) (stdout : bytes).

(** With [shell=True] the child is the shell; when it finds no [git]
    executable it exits with status 127 and writes nothing to stdout. *)
Definition command_not_found : popen_result := Exited 127 [].

(** The outside world of one invocation: the local wall clock with the
    system's UTC offset, and the outcome of each child process. *)
Record World : Type := mk_world {
  clock : datetime;
  gmtoff : Z;
  popen : list string -> bool -> popen_result
}.

(** The externally visible actions of the Python process. *)
Inductive event : Type :=
| EvGetItem (key : string)
| EvNow
| EvPopen (args : list string) (shell : bool)
| EvAppend (defs : list define)
| EvOpenWrite (path : str)
| EvGetenv (name : str).

Record state : Type := mk_state {
  st_env : Env;
  st_trace : list event
}.

Inductive result (A : Type) : Type :=
| Ret (a : A)
| Raise (e : exn).
Arguments Ret {A} a.
Arguments Raise {A} e.

(** A Python computation: it runs from a state to a value or an exception
    and the state at that point. *)
Definition Py (A : Type) : Type := state -> result A * state.

Definition ret {A} (a : A) : Py A := fun st => (Ret a, st).

Definition raise {A} (e : exn) : Py A := fun st => (Raise e, st).

Definition bind {A B} (m : Py A) (k : A -> Py B) : Py B :=
  fun st =>
    match m st with
    | (Ret a, st') => k a st'
    | (Raise e, st') => (Raise e, st')
    end.

Notation "x <- m ;; k" := (bind m (fun x => k))
  (at level 100, m at next level, right associativity).

(** [try: body except E: handler], with [handles e] telling whether [e] is
    an instance of [E]. *)
Definition try_except {A} (body : Py A) (handles : exn -> bool)
    (handler : Py A) : Py A :=
  fun st =>
    match body st with
    | (Ret a, st') => (Ret a, st')
    | (Raise e, st') => if handles e then handler st' else (Raise e, st')
    end.

Definition is_CalledProcessError (e : exn) : bool :=
  match e with CalledProcessError _ _ => true | _ => false end.

Definition log (ev : event) (st : state) : state :=
  mk_state (st_env st) (st_trace st ++ [ev]).

(** [env[key]] *)
Definition env_getitem (key : string) : Py value :=
  fun st =>
    let st' := log (EvGetItem key) st in
    match vars (st_env st) !! key with
    | Some v => (Ret v, st')
    | None => (Raise (KeyError key), st')
    end.

(** [env.Append(CPPDEFINES=defs)] *)
Definition env_Append_CPPDEFINES (defs : list define) : Py unit :=
  fun st =>
    let e := st_env st in
    (Ret tt,
     mk_state (mk_env (vars e) (CPPDEFINES e ++ defs))
              (st_trace st ++ [EvAppend defs])).

(** [os.path.join(a, b)] with [a] taken from the environment: [os.fspath]
    raises [TypeError] on a value that is not path-like. *)
Definition os_path_join (a : value) (b : str) : Py str :=
  match a with
  | VStr s => ret (posixpath.join s b)
  | VList _ => raise TypeError
  end.

(** [bytes.decode('utf-8')] *)
Definition decode (b : bytes) : Py str :=
  match utf8_decode b with
  | Some s => ret s
  | None => raise UnicodeDecodeError
  end.

Section Script.

Variable w : World.

(** [datetime.now()] *)
Definition datetime_now : Py datetime :=
  fun st => (Ret (clock w), log EvNow st).

(** [subprocess.check_output(args, shell=shell)]: [run(..., check=True)]
    raises [CalledProcessError] on a non-zero return code. *)
Definition check_output (args : list string) (shell : bool) : Py bytes :=
  fun st =>
    let st' := log (EvPopen args shell) st in
    match popen w args shell with
    | SpawnFailed => (Raise OSError, st')
    | Exited rc out =>
        if rc =? 0 then (Ret out, st')
        else (Raise (CalledProcessError rc out), st')
    end.

Definition rev_parse_args : list string :=
  ["git"; "rev-parse"; "--short"; "HEAD"]%string.

Definition branch_args : list string :=
  ["git"; "branch"; "--show-current"]%string.

(** [get_git_revision_short_hash] (lines 6-10 of the script): the output of
    the child, decoded and stripped; [except CalledProcessError] returns the
    sentinel. *)
Definition get_git_revision_short_hash : Py str :=
  try_except
    (out <- check_output rev_parse_args true ;;
     s <- decode out ;;
     ret (strip s))
    is_CalledProcessError
    (ret (lit "N/A")).

(** [get_git_current_branch] (lines 12-16). *)
Definition get_git_current_branch : Py str :=
  try_except
    (out <- check_output branch_args true ;;
     s <- decode out ;;
     ret (strip s))
    is_CalledProcessError
    (ret (lit "N/A")).

(** [macro_value] (line 21), as a function of [proj_path]. *)
Definition macro_value (proj_path : str) : str :=
  quoted (snd (posixpath.split (posixpath.dirname proj_path))).

(** [tz_dt] (line 22), as a function of the clock reading. *)
Definition tz_dt (now : datetime) : str :=
  isoformat (astimezone (gmtoff w) (replace_microsecond now 0)) 32.

(** The body of the script (lines 18-29), with [env] the object that
    [Import] has bound. The elements of the list passed to [env.Append] are
    evaluated in order, so the branch is queried before the hash. *)
Definition script : Py unit :=
  dir <- env_getitem "PROJECT_DIR" ;;
  proj_path <- os_path_join dir (lit "dummy") ;;
  let macro := macro_value proj_path in
  now <- datetime_now ;;
  let stamp := tz_dt now in
  branch <- get_git_current_branch ;;
  hash <- get_git_revision_short_hash ;;
  env_Append_CPPDEFINES
    [ (lit "PROJECT_PATH", macro);
      (lit "CURRENT_TIME", quoted stamp);
      (lit "BRANCH_NAME", quoted branch);
      (lit "COMMIT_HASH", quoted hash) ].

(** One invocation on the environment [e]. *)
Definition run (e : Env) : result unit * state :=
  script (mk_state e []).

End Script.

(** The project name that the script derives from [PROJECT_DIR]. *)
Definition project_name (dir : str) : str :=
  snd (posixpath.split
         (posixpath.dirname (posixpath.join dir (lit "dummy")))).

(** The definitions an invocation registered: what [CPPDEFINES] holds
    beyond its initial content. *)
Definition registered (e : Env) (st : state) : list define :=
  drop (length (CPPDEFINES e)) (CPPDEFINES (st_env st)).

(** The value registered under a name, if any. *)
Fixpoint lookup_define (name : str) (defs : list define) : option str :=
  match defs with
  | [] => None
  | (n, v) :: r => if bool_decide (n = name) then Some v else lookup_define name r
  end.

Definition is_popen (ev : event) : bool :=
  match ev with EvPopen _ _ => true | _ => false end.


Definition is_append (ev : event) : bool :=
  match ev with EvAppend _ => true | _ => false end.

(** Writing a file or reading the process environment. *)
Definition is_file_or_environ (ev : event) : bool :=
  match ev with EvOpenWrite _ | EvGetenv _ => true | _ => false end.

Fixpoint count (f : event -> bool) (t : list event) : nat :=
  match t with
  | [] => O
  | ev :: r => ((if f ev then 1 else 0) + count f r)%nat
  end.

(** ** Summaries used in the statements *)

(** What a git query returns or raises, by the outcome of its child. *)
Definition git_query (r : popen_result) : result str :=
  match r with
  | SpawnFailed => Raise OSError
  | Exited rc out =>
      if rc =? 0 then
        match utf8_decode out with
        | Some s => Ret (strip s)
        | None => Raise UnicodeDecodeError
        end
      else Ret (lit "N/A")
  end.

(** A git query fails: the shell finds no [git], or the child exits with a
    non-zero status. *)
Definition git_query_fails (r : popen_result) : Prop :=
  r = command_not_found \/ exists rc out, r = Exited rc out /\ rc <> 0.

(** The list handed to [env.Append]. *)
Definition new_defines (w : World) (dir branch hash : str) : list define :=
  [ (lit "PROJECT_PATH", quoted (project_name dir));
    (lit "CURRENT_TIME", quoted (tz_dt w (clock w)));
    (lit "BRANCH_NAME", quoted branch);
    (lit "COMMIT_HASH", quoted hash) ].

Definition begins_and_ends_with_dquote (s : str) : Prop :=
  exists body, s = dquote :: body ++ [dquote].

(** *** Path segments, in the words of the specification

    The segments of a path are the non-empty pieces between separators, so
    that trailing separators do not count. *)
Fixpoint split_on_sep (p : str) : list str :=
  match p with
  | [] => [[]]
  | c :: r =>
      if posixpath.is_sep c then [] :: split_on_sep r
      else match split_on_sep r with
           | s :: ss => (c :: s) :: ss
           | [] => [[c]]
           end
  end.

Definition nonempty (s : str) : bool :=
  match s with [] => false | _ :: _ => true end.

Definition segments (p : str) : list str :=
  List.filter nonempty (split_on_sep p).

(** The final segment of a path ([[]] when it has none). *)
Definition final_segment (p : str) : str :=
  match last (segments p) with Some s => s | None => [] end.

(** The final segment of the parent directory of a path: the parent is the
    path without its final segment. *)
Definition parent_final_segment (p : str) : str :=
  match last (removelast (segments p)) with Some s => s | None => [] end.

(** A string holds no separator. *)
Definition no_sep (s : str) : Prop :=
  Forall (fun c => posixpath.is_sep c = false) s.

(** A string neither begins nor ends with white space. *)
Definition no_surrounding_whitespace (s : str) : Prop :=
  (forall c, head s = Some c -> isspace c = false)
  /\ (forall c, last s = Some c -> isspace c = false).

(** *** Sample worlds and environments *)

Definition sample_clock : datetime := mk_datetime 2024 3 9 7 5 0 123456 None.

Definition answers (branch hash : popen_result)
    : list string -> bool -> popen_result :=
  fun args _ => if bool_decide (args = branch_args) then branch else hash.

(** On branch [main] at commit [abc1234]: each query prints its answer and
    a newline. *)
Definition world_main : World :=
  mk_world sample_clock 3600
           (answers (Exited 0 (blit "main" ++ [x0a]%byte))
                    (Exited 0 (blit "abc1234" ++ [x0a]%byte))).

(** No [git] executable on the search path. *)
Definition world_no_git : World :=
  mk_world sample_clock 3600 (answers command_not_found command_not_found).

(** Outside any repository: [git] exits with status 128. *)
Definition world_no_repo : World :=
  mk_world sample_clock (-12600) (answers (Exited 128 []) (Exited 128 [])).

(** The branch query prints the single byte E9 (a Latin-1 e-acute) and a
    newline, which is not UTF-8. *)
Definition world_latin1 : World :=
  mk_world sample_clock 3600
           (answers (Exited 0 [xe9; x0a]%byte)
                    (Exited 0 (blit "abc1234" ++ [x0a]%byte))).

Definition env_of (dir : str) : Env :=
  mk_env {[ "PROJECT_DIR"%string := VStr dir ]} [].

Definition env_without_project_dir : Env := mk_env ∅ [].

(** *** The order of the script's actions, and the characters of a stamp *)

(** The actions of a run that reaches [env.Append], in the order of the
    statements of the script. *)
Definition full_trace (defs : list define) : list event :=
  [EvGetItem "PROJECT_DIR"; EvNow; EvPopen branch_args true;
   EvPopen rev_parse_args true; EvAppend defs].

(** A decimal digit, or one of the characters [-], [:], space and [+]. *)
Definition is_stamp_char (c : Z) : bool :=
  ((48 <=? c) && (c <=? 57)) || (c =? 45) || (c =? 58) || (c =? 32)
  || (c =? 43).

(** On a detached HEAD: the branch query succeeds and prints nothing. *)
Definition world_detached : World :=
  mk_world sample_clock 3600
           (answers (Exited 0 []) (Exited 0 (blit "abc1234" ++ [x0a]%byte))).

(** The shell itself cannot be started. *)
Definition world_no_shell : World :=
  mk_world sample_clock 3600 (answers SpawnFailed SpawnFailed).

(** An environment with other construction variables and an earlier
    definition. *)
Definition env_rich : Env :=
  mk_env (<[ "PIOENV"%string := VStr (lit "uno") ]>
            (<[ "BUILD_FLAGS"%string := VList [lit "-Os"] ]>
               {[ "PROJECT_DIR"%string := VStr (lit "/home/u/proj") ]}))
         [(lit "F_CPU", lit "16000000L")].

(** * Properties *)

(** ** Sanity checks of the runtime model *)

Example strip_newline : strip (lit "main" ++ [10]) = lit "main".
Proof. reflexivity. Qed.

Example decode_ascii :
  utf8_decode (blit "abc1234" ++ [x0a]%byte) = Some (lit "abc1234" ++ [10]).
Proof. reflexivity. Qed.

Example split_ex :
  posixpath.split (lit "/home/u/proj") = (lit "/home/u", lit "proj").
Proof. vm_compute. reflexivity. Qed.

Example isoformat_ex :
  isoformat (mk_datetime 2024 3 9 7 5 0 0 (Some (-12600))) 32
  = lit "2024-03-09 07:05:00-03:30".
Proof. vm_compute. reflexivity. Qed.

Example fromisoformat_ex :
  fromisoformat (lit "2024-03-09 07:05:00-03:30")
  = Some (mk_datetime 2024 3 9 7 5 0 0 (Some (-12600))).
Proof. vm_compute. reflexivity. Qed.

Example ymd2ord_ex : ymd2ord 2024 3 9 = 738954.
Proof. vm_compute. reflexivity. Qed.

(** ** The script, case by case *)

Lemma get_git_current_branch_eq w st :
  get_git_current_branch w st
  = (git_query (popen w branch_args true), log (EvPopen branch_args true) st).
Proof.
  unfold get_git_current_branch, try_except, bind, check_output, decode.
  unfold git_query.
  destruct (popen w branch_args true) as [|rc out]; simpl; [reflexivity|].
  destruct (rc =? 0); simpl; [|reflexivity].
  destruct (utf8_decode out); reflexivity.
Qed.

Lemma get_git_revision_short_hash_eq w st :
  get_git_revision_short_hash w st
  = (git_query (popen w rev_parse_args true),
     log (EvPopen rev_parse_args true) st).
Proof.
  unfold get_git_revision_short_hash, try_except, bind, check_output, decode.
  unfold git_query.
  destruct (popen w rev_parse_args true) as [|rc out]; simpl; [reflexivity|].
  destruct (rc =? 0); simpl; [|reflexivity].
  destruct (utf8_decode out); reflexivity.
Qed.

Lemma git_query_fails_NA r : git_query_fails r -> git_query r = Ret (lit "N/A").
Proof.
  intros [-> | (rc & out & -> & Hrc)]; [reflexivity|].
  unfold git_query. destruct (Z.eqb_spec rc 0); [contradiction|reflexivity].
Qed.

Lemma run_missing w e :
  vars e !! "PROJECT_DIR"%string = None ->
  run w e = (Raise (KeyError "PROJECT_DIR"),
             mk_state e [EvGetItem "PROJECT_DIR"]).
Proof.
  intros H. unfold run, script, bind, env_getitem. simpl. rewrite H. reflexivity.
Qed.

Lemma run_not_pathlike w e l :
  vars e !! "PROJECT_DIR"%string = Some (VList l) ->
  run w e = (Raise TypeError, mk_state e [EvGetItem "PROJECT_DIR"]).
Proof.
  intros H. unfold run, script, bind, env_getitem. simpl. rewrite H. reflexivity.
Qed.

Lemma run_str w e dir :
  vars e !! "PROJECT_DIR"%string = Some (VStr dir) ->
  run w e =
    let t0 := [EvGetItem "PROJECT_DIR"; EvNow; EvPopen branch_args true] in
    match git_query (popen w branch_args true) with
    | Raise x => (Raise x, mk_state e t0)
    | Ret b =>
        match git_query (popen w rev_parse_args true) with
        | Raise x => (Raise x, mk_state e (t0 ++ [EvPopen rev_parse_args true]))
        | Ret h =>
            (Ret tt,
             mk_state (mk_env (vars e) (CPPDEFINES e ++ new_defines w dir b h))
                      (t0 ++ [EvPopen rev_parse_args true;
                              EvAppend (new_defines w dir b h)]))
        end
    end.
Proof.
  intros H. unfold run, script.
  unfold bind at 1. unfold env_getitem at 1. simpl. rewrite H.
  unfold bind at 1. simpl.
  unfold bind at 1. unfold datetime_now at 1. simpl.
  unfold bind at 1. rewrite get_git_current_branch_eq.
  destruct (git_query (popen w branch_args true)) as [b|x]; [|reflexivity].
  unfold bind at 1. rewrite get_git_revision_short_hash_eq.
  destruct (git_query (popen w rev_parse_args true)) as [h|x]; reflexivity.
Qed.

(** Every run falls under one of the three lemmas above. *)
Lemma project_dir_cases (e : Env) :
  vars e !! "PROJECT_DIR"%string = None
  \/ (exists l, vars e !! "PROJECT_DIR"%string = Some (VList l))
  \/ (exists dir, vars e !! "PROJECT_DIR"%string = Some (VStr dir)).
Proof.
  destruct (vars e !! "PROJECT_DIR"%string) as [[dir|l]|]; eauto.
Qed.

(** A run that returns has registered [new_defines]; one that raises has
    left the environment as it was. *)
Lemma run_returns w e :
  fst (run w e) = Ret tt ->
  exists dir b h,
    vars e !! "PROJECT_DIR"%string = Some (VStr dir)
    /\ git_query (popen w branch_args true) = Ret b
    /\ git_query (popen w rev_parse_args true) = Ret h
    /\ st_env (snd (run w e))
       = mk_env (vars e) (CPPDEFINES e ++ new_defines w dir b h)
    /\ st_trace (snd (run w e))
       = [EvGetItem "PROJECT_DIR"; EvNow; EvPopen branch_args true;
          EvPopen rev_parse_args true; EvAppend (new_defines w dir b h)].
Proof.
  destruct (project_dir_cases e) as [H | [[l H] | [dir H]]].
  - rewrite (run_missing w e H). discriminate.
  - rewrite (run_not_pathlike w e l H). discriminate.
  - rewrite (run_str w e dir H). simpl.
    destruct (git_query (popen w branch_args true)) as [b|x]; [|discriminate].
    destruct (git_query (popen w rev_parse_args true)) as [h|x]; [|discriminate].
    intros _. exists dir, b, h. simpl. auto.
Qed.

Lemma run_raises w e x :
  fst (run w e) = Raise x ->
  st_env (snd (run w e)) = e
  /\ count is_append (st_trace (snd (run w e))) = O.
Proof.
  destruct (project_dir_cases e) as [H | [[l H] | [dir H]]].
  - rewrite (run_missing w e H). simpl. auto.
  - rewrite (run_not_pathlike w e l H). simpl. auto.
  - rewrite (run_str w e dir H). simpl.
    destruct (git_query (popen w branch_args true)) as [b|y]; [|simpl; auto].
    destruct (git_query (popen w rev_parse_args true)) as [h|y];
      [discriminate|simpl; auto].
Qed.

Lemma registered_app (e : Env) (st : state) (defs : list define) :
  CPPDEFINES (st_env st) = CPPDEFINES e ++ defs -> registered e st = defs.
Proof.
  intros H. unfold registered. rewrite H. apply drop_app_length.
Qed.

Lemma registered_same (e : Env) (t : list event) :
  registered e (mk_state e t) = [].
Proof. unfold registered. simpl. apply drop_all. Qed.

Lemma lookup_new_defines w dir b h :
  lookup_define (lit "PROJECT_PATH") (new_defines w dir b h)
    = Some (quoted (project_name dir))
  /\ lookup_define (lit "CURRENT_TIME") (new_defines w dir b h)
    = Some (quoted (tz_dt w (clock w)))
  /\ lookup_define (lit "BRANCH_NAME") (new_defines w dir b h)
    = Some (quoted b)
  /\ lookup_define (lit "COMMIT_HASH") (new_defines w dir b h)
    = Some (quoted h).
Proof. repeat split; reflexivity. Qed.

(** ** Git failures are replaced by the sentinel *)

(** C1: when a git query finds no git executable or its child exits with a
    non-zero status, [get_git_current_branch] and
    [get_git_revision_short_hash] return exactly the string N/A: they
    return rather than raise, and the string is not empty. *)
Theorem git_failure_resolves_to_NA (w : World) (st : state) :
  (git_query_fails (popen w branch_args true) ->
   get_git_current_branch w st
   = (Ret (lit "N/A"), log (EvPopen branch_args true) st))
  /\ (git_query_fails (popen w rev_parse_args true) ->
      get_git_revision_short_hash w st
      = (Ret (lit "N/A"), log (EvPopen rev_parse_args true) st))
  /\ lit "N/A" <> [].
Proof.
  split; [|split].
  - intros H. rewrite get_git_current_branch_eq.
    rewrite (git_query_fails_NA _ H). reflexivity.
  - intros H. rewrite get_git_revision_short_hash_eq.
    rewrite (git_query_fails_NA _ H). reflexivity.
  - discriminate.
Qed.

Lemma git_failure_resolves_to_NA_witness :
  get_git_current_branch world_no_git (mk_state env_without_project_dir [])
  = (Ret (lit "N/A"),
     mk_state env_without_project_dir [EvPopen branch_args true])
  /\ get_git_revision_short_hash world_no_repo
       (mk_state env_without_project_dir [])
     = (Ret (lit "N/A"),
        mk_state env_without_project_dir [EvPopen rev_parse_args true]).
Proof.
  split.
  - apply (git_failure_resolves_to_NA world_no_git
             (mk_state env_without_project_dir [])).
    left. reflexivity.
  - apply (git_failure_resolves_to_NA world_no_repo
             (mk_state env_without_project_dir [])).
    right. exists 128, []. split; [reflexivity|lia].
Defined.

(** ** The scenario on branch main at commit abc1234 *)

(** C2, as stated, fails: with [PROJECT_DIR] equal to /home/u/proj/dummy the
    script registers the project name dummy, not proj. *)
Lemma scenario_project_dir_dummy_counterexample :
  let e := env_of (lit "/home/u/proj/dummy") in
  fst (run world_main e) = Ret tt
  /\ lookup_define (lit "PROJECT_PATH") (registered e (snd (run world_main e)))
     = Some (quoted (lit "dummy"))
  /\ lookup_define (lit "PROJECT_PATH") (registered e (snd (run world_main e)))
     <> Some (quoted (lit "proj")).
Proof.
  split; [|split].
  - vm_compute. reflexivity.
  - vm_compute. reflexivity.
  - vm_compute. discriminate.
Qed.

(** C2, amended: with [PROJECT_DIR] equal to /home/u/proj, so that the
    synthetic [proj_path] is /home/u/proj/dummy, and git queries that
    succeed with main and abc1234 as their output up to surrounding white
    space, the script registers PROJECT_PATH as proj, BRANCH_NAME as main
    and COMMIT_HASH as abc1234, each in double quotes. *)
Theorem scenario_main_abc1234 (w : World) (e : Env) (outb outh : bytes)
    (sb sh : str) :
  vars e !! "PROJECT_DIR"%string = Some (VStr (lit "/home/u/proj")) ->
  popen w branch_args true = Exited 0 outb ->
  utf8_decode outb = Some sb -> strip sb = lit "main" ->
  popen w rev_parse_args true = Exited 0 outh ->
  utf8_decode outh = Some sh -> strip sh = lit "abc1234" ->
  fst (run w e) = Ret tt
  /\ registered e (snd (run w e))
     = [ (lit "PROJECT_PATH", quoted (lit "proj"));
         (lit "CURRENT_TIME", quoted (tz_dt w (clock w)));
         (lit "BRANCH_NAME", quoted (lit "main"));
         (lit "COMMIT_HASH", quoted (lit "abc1234")) ].
Proof.
  intros Hdir Hb Hdb Hsb Hh Hdh Hsh.
  rewrite (run_str w e _ Hdir), Hb, Hh.
  unfold git_query. change (0 =? 0) with true. cbv iota.
  rewrite Hdb, Hdh, Hsb, Hsh.
  simpl. split; [reflexivity|].
  apply registered_app. simpl. reflexivity.
Qed.

Lemma scenario_main_abc1234_witness :
  registered (env_of (lit "/home/u/proj"))
             (snd (run world_main (env_of (lit "/home/u/proj"))))
  = [ (lit "PROJECT_PATH", quoted (lit "proj"));
      (lit "CURRENT_TIME", quoted (lit "2024-03-09 07:05:00+01:00"));
      (lit "BRANCH_NAME", quoted (lit "main"));
      (lit "COMMIT_HASH", quoted (lit "abc1234")) ].
Proof.
  apply (scenario_main_abc1234 world_main (env_of (lit "/home/u/proj"))
           (blit "main" ++ [x0a]%byte) (blit "abc1234" ++ [x0a]%byte)
           (lit "main" ++ [10]) (lit "abc1234" ++ [10]));
    reflexivity.
Defined.

(** ** The four definitions *)

(** C4, as stated, fails: an invocation whose environment has no
    [PROJECT_DIR] raises [KeyError] and registers nothing, and so does, with
    [UnicodeDecodeError], one whose branch query prints bytes that are not
    UTF-8. *)
Lemma no_project_dir_registers_nothing_counterexample :
  (fst (run world_main env_without_project_dir) = Raise (KeyError "PROJECT_DIR")
   /\ registered env_without_project_dir
                 (snd (run world_main env_without_project_dir)) = []
   /\ length (registered env_without_project_dir
                 (snd (run world_main env_without_project_dir))) <> 4%nat)
  /\ (fst (run world_latin1 (env_of (lit "/home/u/proj")))
      = Raise UnicodeDecodeError
      /\ length (registered (env_of (lit "/home/u/proj"))
                    (snd (run world_latin1 (env_of (lit "/home/u/proj")))))
         <> 4%nat).
Proof.
  split; [split; [|split]|split].
  - vm_compute. reflexivity.
  - vm_compute. reflexivity.
  - vm_compute. discriminate.
  - vm_compute. reflexivity.
  - vm_compute. discriminate.
Qed.

(** C4, amended: every invocation that runs to completion registers exactly
    four definitions, named PROJECT_PATH, CURRENT_TIME, BRANCH_NAME and
    COMMIT_HASH in this order, after the definitions already present, and
    each of the four values begins and ends with a double quote; an
    invocation that ends in an exception registers none. *)
Theorem completed_run_registers_four_quoted (w : World) (e : Env) :
  match fst (run w e) with
  | Ret _ =>
      exists v1 v2 v3 v4,
        registered e (snd (run w e))
        = [ (lit "PROJECT_PATH", v1); (lit "CURRENT_TIME", v2);
            (lit "BRANCH_NAME", v3); (lit "COMMIT_HASH", v4) ]
        /\ CPPDEFINES (st_env (snd (run w e)))
           = CPPDEFINES e ++ registered e (snd (run w e))
        /\ begins_and_ends_with_dquote v1 /\ begins_and_ends_with_dquote v2
        /\ begins_and_ends_with_dquote v3 /\ begins_and_ends_with_dquote v4
  | Raise _ => registered e (snd (run w e)) = []
  end.
Proof.
  destruct (fst (run w e)) as [[]|x] eqn:Hr.
  - destruct (run_returns w e Hr) as (dir & b & h & _ & _ & _ & Henv & _).
    assert (Hreg : registered e (snd (run w e)) = new_defines w dir b h)
      by (apply registered_app; rewrite Henv; reflexivity).
    rewrite Hreg, Henv. unfold new_defines, begins_and_ends_with_dquote, quoted.
    eexists _, _, _, _. repeat split; eauto.
  - destruct (run_raises w e x Hr) as [Henv _].
    unfold registered. rewrite Henv. apply drop_all.
Qed.

(** ** Outside a repository *)

(** C5: when both git queries fail, the run still completes; BRANCH_NAME and
    COMMIT_HASH are the quoted sentinel N/A, and PROJECT_PATH and
    CURRENT_TIME are what the project directory and the clock give, the same
    values that a run with the same directory and clock registers when its
    git queries succeed. *)
Theorem outside_repository (w : World) (e : Env) (dir : str) :
  vars e !! "PROJECT_DIR"%string = Some (VStr dir) ->
  git_query_fails (popen w branch_args true) ->
  git_query_fails (popen w rev_parse_args true) ->
  fst (run w e) = Ret tt
  /\ registered e (snd (run w e))
     = [ (lit "PROJECT_PATH", quoted (project_name dir));
         (lit "CURRENT_TIME", quoted (tz_dt w (clock w)));
         (lit "BRANCH_NAME", quoted (lit "N/A"));
         (lit "COMMIT_HASH", quoted (lit "N/A")) ]
  /\ forall w',
       clock w' = clock w -> gmtoff w' = gmtoff w ->
       fst (run w' e) = Ret tt ->
       lookup_define (lit "PROJECT_PATH") (registered e (snd (run w' e)))
       = lookup_define (lit "PROJECT_PATH") (registered e (snd (run w e)))
       /\ lookup_define (lit "CURRENT_TIME") (registered e (snd (run w' e)))
          = lookup_define (lit "CURRENT_TIME") (registered e (snd (run w e))).
Proof.
  intros Hdir Hb Hh.
  assert (Hrun : run w e
                 = (Ret tt,
                    mk_state
                      (mk_env (vars e)
                         (CPPDEFINES e
                          ++ new_defines w dir (lit "N/A") (lit "N/A")))
                      [EvGetItem "PROJECT_DIR"; EvNow;
                       EvPopen branch_args true; EvPopen rev_parse_args true;
                       EvAppend (new_defines w dir (lit "N/A") (lit "N/A"))])).
  { rewrite (run_str w e dir Hdir).
    rewrite (git_query_fails_NA _ Hb), (git_query_fails_NA _ Hh). reflexivity. }
  assert (Hreg : registered e (snd (run w e))
                 = new_defines w dir (lit "N/A") (lit "N/A"))
    by (apply registered_app; rewrite Hrun; reflexivity).
  split; [rewrite Hrun; reflexivity|].
  split; [rewrite Hreg; reflexivity|].
  intros w' Hclock Hoff Hr'.
  destruct (run_returns w' e Hr') as (dir' & b & h & Hdir' & _ & _ & Henv & _).
  assert (dir' = dir) by congruence. subst dir'.
  rewrite (registered_app e _ _ (f_equal CPPDEFINES Henv)), Hreg.
  unfold new_defines, tz_dt. rewrite Hclock, Hoff. split; reflexivity.
Qed.

Lemma outside_repository_witness :
  registered (env_of (lit "/home/u/proj"))
             (snd (run world_no_repo (env_of (lit "/home/u/proj"))))
  = [ (lit "PROJECT_PATH", quoted (lit "proj"));
      (lit "CURRENT_TIME", quoted (lit "2024-03-09 07:05:00-03:30"));
      (lit "BRANCH_NAME", quoted (lit "N/A"));
      (lit "COMMIT_HASH", quoted (lit "N/A")) ].
Proof.
  apply (outside_repository world_no_repo (env_of (lit "/home/u/proj"))
           (lit "/home/u/proj")).
  - reflexivity.
  - right. exists 128, []. split; [reflexivity|lia].
  - right. exists 128, []. split; [reflexivity|lia].
Defined.

(** ** Failures that are not recovered *)

(** C7: a failure other than a failing git child is not recovered. A missing
    [PROJECT_DIR] ends the run with [KeyError], a value that is not a path
    with [TypeError], git output that is not UTF-8 with
    [UnicodeDecodeError]; and whenever a run ends in an exception, that
    exception is not the [CalledProcessError] of a git child, the
    environment is the initial one and nothing has been registered. *)
Theorem other_failures_propagate (w : World) (e : Env) :
  (vars e !! "PROJECT_DIR"%string = None ->
   fst (run w e) = Raise (KeyError "PROJECT_DIR"))
  /\ (forall l, vars e !! "PROJECT_DIR"%string = Some (VList l) ->
      fst (run w e) = Raise TypeError)
  /\ (forall dir out,
      vars e !! "PROJECT_DIR"%string = Some (VStr dir) ->
      popen w branch_args true = Exited 0 out ->
      utf8_decode out = None ->
      fst (run w e) = Raise UnicodeDecodeError)
  /\ (forall x, fst (run w e) = Raise x ->
      is_CalledProcessError x = false
      /\ st_env (snd (run w e)) = e
      /\ registered e (snd (run w e)) = []
      /\ count is_append (st_trace (snd (run w e))) = O).
Proof.
  split; [|split; [|split]].
  - intros H. rewrite (run_missing w e H). reflexivity.
  - intros l H. rewrite (run_not_pathlike w e l H). reflexivity.
  - intros dir out Hdir Hb Hdec. rewrite (run_str w e dir Hdir), Hb.
    simpl. rewrite Hdec. reflexivity.
  - intros x Hx. destruct (run_raises w e x Hx) as [Henv Hcnt].
    split; [|split; [exact Henv|split; [|exact Hcnt]]].
    + destruct (project_dir_cases e) as [H | [[l H] | [dir H]]].
      * rewrite (run_missing w e H) in Hx. inversion Hx. reflexivity.
      * rewrite (run_not_pathlike w e l H) in Hx. inversion Hx. reflexivity.
      * rewrite (run_str w e dir H) in Hx. simpl in Hx.
        assert (Hq : forall r y, git_query r = Raise y ->
                                 is_CalledProcessError y = false).
        { intros [|rc out] y; simpl; [intros [= <-]; reflexivity|].
          destruct (rc =? 0); [|discriminate].
          destruct (utf8_decode out); [discriminate|].
          intros [= <-]. reflexivity. }
        destruct (git_query (popen w branch_args true)) as [b|y] eqn:Eb.
        -- destruct (git_query (popen w rev_parse_args true)) as [h|y] eqn:Eh;
             [discriminate|].
           simpl in Hx. inversion Hx. subst. eapply Hq, Eh.
        -- simpl in Hx. inversion Hx. subst. eapply Hq, Eb.
    + unfold registered. rewrite Henv. apply drop_all.
Qed.

Lemma other_failures_propagate_witness :
  fst (run world_main env_without_project_dir) = Raise (KeyError "PROJECT_DIR").
Proof.
  apply (other_failures_propagate world_main env_without_project_dir).
  reflexivity.
Defined.

(** ** Effects of one invocation *)

(** C8: an invocation starts at most two child processes, opens no file for
    writing and reads no variable of the process environment; the
    construction variables are left as they were, and [CPPDEFINES] changes
    only by one [Append] of the four definitions, placed after the entries
    already present (and not at all when the run ends in an exception). *)
Theorem single_append_and_two_children (w : World) (e : Env) :
  let r := fst (run w e) in
  let st := snd (run w e) in
  (count is_popen (st_trace st) <= 2)%nat
  /\ count is_file_or_environ (st_trace st) = O
  /\ (count is_append (st_trace st) <= 1)%nat
  /\ vars (st_env st) = vars e
  /\ CPPDEFINES (st_env st) = CPPDEFINES e ++ registered e st
  /\ match r with
     | Ret _ =>
         count is_append (st_trace st) = 1%nat
         /\ In (EvAppend (registered e st)) (st_trace st)
         /\ length (registered e st) = 4%nat
     | Raise _ => st_env st = e
     end.
Proof.
  intros r st. subst r st.
  destruct (fst (run w e)) as [[]|x] eqn:Hr.
  - destruct (run_returns w e Hr) as (dir & b & h & _ & _ & _ & Henv & Htr).
    assert (Hreg : registered e (snd (run w e)) = new_defines w dir b h)
      by (apply registered_app; rewrite Henv; reflexivity).
    rewrite Hreg, Henv, Htr. simpl.
    repeat split; try lia. do 4 right. left. reflexivity.
  - destruct (project_dir_cases e) as [H | [[l H] | [dir H]]].
    + rewrite (run_missing w e H). simpl. rewrite registered_same, app_nil_r.
      repeat split; lia.
    + rewrite (run_not_pathlike w e l H). simpl.
      rewrite registered_same, app_nil_r. repeat split; lia.
    + rewrite (run_str w e dir H) in Hr |- *. simpl in Hr |- *.
      destruct (git_query (popen w branch_args true)) as [b|y].
      * destruct (git_query (popen w rev_parse_args true)) as [h|y];
          [discriminate|].
        simpl. rewrite registered_same, app_nil_r. repeat split; lia.
      * simpl. rewrite registered_same, app_nil_r. repeat split; lia.
Qed.

(** ** The project name depends on the project directory only *)

(** C10: two invocations whose environments hold the same [PROJECT_DIR]
    register the same PROJECT_PATH value, whatever their clocks, their git
    outcomes and the rest of their environments are. *)
Theorem project_path_depends_on_project_dir_only
    (w1 w2 : World) (e1 e2 : Env) :
  vars e1 !! "PROJECT_DIR"%string = vars e2 !! "PROJECT_DIR"%string ->
  fst (run w1 e1) = Ret tt ->
  fst (run w2 e2) = Ret tt ->
  exists v,
    lookup_define (lit "PROJECT_PATH") (registered e1 (snd (run w1 e1))) = Some v
    /\ lookup_define (lit "PROJECT_PATH") (registered e2 (snd (run w2 e2)))
       = Some v.
Proof.
  intros Hsame H1 H2.
  destruct (run_returns w1 e1 H1) as (d1 & b1 & h1 & Hd1 & _ & _ & Henv1 & _).
  destruct (run_returns w2 e2 H2) as (d2 & b2 & h2 & Hd2 & _ & _ & Henv2 & _).
  assert (d1 = d2) by congruence. subst d2.
  rewrite (registered_app e1 _ _ (f_equal CPPDEFINES Henv1)).
  rewrite (registered_app e2 _ _ (f_equal CPPDEFINES Henv2)).
  exists (quoted (project_name d1)). split; reflexivity.
Qed.

Lemma project_path_depends_on_project_dir_only_witness :
  exists v,
    lookup_define (lit "PROJECT_PATH")
      (registered (env_of (lit "/home/u/proj"))
         (snd (run world_main (env_of (lit "/home/u/proj"))))) = Some v
    /\ lookup_define (lit "PROJECT_PATH")
         (registered (env_of (lit "/home/u/proj"))
            (snd (run world_no_repo (env_of (lit "/home/u/proj"))))) = Some v.
Proof.
  apply (project_path_depends_on_project_dir_only world_main world_no_repo
           (env_of (lit "/home/u/proj")) (env_of (lit "/home/u/proj")));
    reflexivity.
Defined.

(** ** Stripping the output of git *)

Section Strip.

Variable f : Z -> bool.

Lemma lstrip_by_prefix (s : str) :
  exists l, s = l ++ lstrip_by f s /\ Forall (fun c => f c = true) l.
Proof.
  induction s as [|c r IH]; simpl.
  - exists []. split; [reflexivity|constructor].
  - destruct (f c) eqn:Hc.
    + destruct IH as (l & Hl & Hall). exists (c :: l). split.
      * simpl. congruence.
      * constructor; assumption.
    + exists []. split; [reflexivity|constructor].
Qed.

Lemma lstrip_by_head (s : str) (c : Z) :
  head (lstrip_by f s) = Some c -> f c = false.
Proof.
  induction s as [|d r IH]; simpl; [discriminate|].
  destruct (f d) eqn:Hd; [exact IH|].
  simpl. intros [= <-]. exact Hd.
Qed.

Lemma rstrip_by_suffix (s : str) :
  exists r, s = rstrip_by f s ++ r /\ Forall (fun c => f c = true) r.
Proof.
  unfold rstrip_by.
  destruct (lstrip_by_prefix (rev s)) as (l & Hl & Hall).
  exists (rev l). split.
  - rewrite <- rev_app_distr, <- Hl, rev_involutive. reflexivity.
  - apply Forall_forall. intros x Hx. apply list_elem_of_In, in_rev in Hx.
    rewrite Forall_forall in Hall. apply Hall, list_elem_of_In, Hx.
Qed.

Lemma last_rev_head (s : str) : last (rev s) = head s.
Proof.
  destruct s as [|c r]; [reflexivity|]. simpl. apply last_snoc.
Qed.

Lemma rstrip_by_last (s : str) (c : Z) :
  last (rstrip_by f s) = Some c -> f c = false.
Proof.
  unfold rstrip_by. rewrite last_rev_head. apply lstrip_by_head.
Qed.

Lemma rstrip_by_head (s : str) (c : Z) :
  head (rstrip_by f s) = Some c -> head s = Some c.
Proof.
  destruct (rstrip_by_suffix s) as (r & Hs & _).
  destruct (rstrip_by f s) as [|d t]; [discriminate|].
  intros H. rewrite Hs. exact H.
Qed.

End Strip.

Lemma strip_removes_surrounding_whitespace (s : str) :
  (exists l r, s = l ++ strip s ++ r
               /\ Forall (fun c => isspace c = true) l
               /\ Forall (fun c => isspace c = true) r)
  /\ no_surrounding_whitespace (strip s).
Proof.
  unfold strip. split.
  - destruct (lstrip_by_prefix isspace s) as (l & Hl & Hall).
    destruct (rstrip_by_suffix isspace (lstrip_by isspace s)) as (r & Hr & Halr).
    exists l, r. split; [|split; assumption].
    rewrite <- Hr. exact Hl.
  - split; intros c Hc.
    + apply rstrip_by_head in Hc. eapply lstrip_by_head, Hc.
    + eapply rstrip_by_last, Hc.
Qed.

Lemma git_query_no_surrounding_whitespace (r : popen_result) (b : str) :
  git_query r = Ret b -> no_surrounding_whitespace b.
Proof.
  destruct r as [|rc out]; simpl; [discriminate|].
  destruct (rc =? 0).
  - destruct (utf8_decode out) as [s|]; [|discriminate].
    intros [= <-]. apply strip_removes_surrounding_whitespace.
  - intros [= <-]. split; intros c; vm_compute; intros [= <-]; reflexivity.
Qed.

(** C9: a git query whose child exits with status 0 returns the decoded
    output with all leading and all trailing white space removed, the
    newline that ends the output included; hence in every completed run the
    text between the quotes of BRANCH_NAME and of COMMIT_HASH neither begins
    nor ends with white space. *)
Theorem successful_query_is_stripped (w : World) :
  (forall st out s,
     utf8_decode out = Some s ->
     (popen w branch_args true = Exited 0 out ->
      get_git_current_branch w st
      = (Ret (strip s), log (EvPopen branch_args true) st))
     /\ (popen w rev_parse_args true = Exited 0 out ->
         get_git_revision_short_hash w st
         = (Ret (strip s), log (EvPopen rev_parse_args true) st))
     /\ (exists l r, s = l ++ strip s ++ r
                     /\ Forall (fun c => isspace c = true) l
                     /\ Forall (fun c => isspace c = true) r)
     /\ no_surrounding_whitespace (strip s)
     /\ strip (s ++ [10]) = strip s)
  /\ (forall e,
        fst (run w e) = Ret tt ->
        exists b h,
          lookup_define (lit "BRANCH_NAME") (registered e (snd (run w e)))
          = Some (quoted b)
          /\ lookup_define (lit "COMMIT_HASH") (registered e (snd (run w e)))
             = Some (quoted h)
          /\ no_surrounding_whitespace b /\ no_surrounding_whitespace h).
Proof.
  split.
  - intros st out s Hdec.
    split; [|split; [|split; [|split]]].
    + intros Hp. rewrite get_git_current_branch_eq, Hp. simpl.
      rewrite Hdec. reflexivity.
    + intros Hp. rewrite get_git_revision_short_hash_eq, Hp. simpl.
      rewrite Hdec. reflexivity.
    + apply strip_removes_surrounding_whitespace.
    + apply strip_removes_surrounding_whitespace.
    + unfold strip, rstrip_by.
      destruct (lstrip_by_prefix isspace s) as (l & Hl & Hall).
      assert (Hsn : lstrip_by isspace (s ++ [10])
                    = lstrip_by isspace s ++ [10] \/
                    (lstrip_by isspace s = [] /\
                     lstrip_by isspace (s ++ [10]) = [])).
      { clear. induction s as [|c r IH]; simpl.
        - right. split; reflexivity.
        - destruct (isspace c); [exact IH|]. left. reflexivity. }
      destruct Hsn as [-> | [-> ->]]; [|reflexivity].
      rewrite rev_app_distr. simpl. reflexivity.
  - intros e Hr.
    destruct (run_returns w e Hr) as (dir & b & h & _ & Hb & Hh & Henv & _).
    rewrite (registered_app e _ _ (f_equal CPPDEFINES Henv)).
    exists b, h. repeat split; try reflexivity;
      eapply git_query_no_surrounding_whitespace; eauto.
Qed.

Lemma successful_query_is_stripped_witness :
  get_git_current_branch world_main (mk_state env_without_project_dir [])
  = (Ret (lit "main"),
     mk_state env_without_project_dir [EvPopen branch_args true]).
Proof.
  apply (proj1 (successful_query_is_stripped world_main)
           (mk_state env_without_project_dir [])
           (blit "main" ++ [x0a]%byte) (lit "main" ++ [10]));
    reflexivity.
Defined.

(** ** The project name is the last segment of the project directory *)

Section PathFacts.

Import posixpath.

Lemma is_sep_sep : is_sep sep = true.
Proof. reflexivity. Qed.

Lemma rfind_no_sep (b : str) : no_sep b -> rfind b = -1.
Proof.
  induction 1 as [|c r Hc _ IH]; simpl; [reflexivity|].
  rewrite IH, Hc. reflexivity.
Qed.

Lemma rfind_last_sep (a b : str) :
  no_sep b -> rfind (a ++ sep :: b) = Z.of_nat (length a).
Proof.
  intros Hb. induction a as [|c a IH]; simpl.
  - rewrite (rfind_no_sep b Hb). reflexivity.
  - rewrite IH. destruct (Z.leb_spec 0 (Z.of_nat (length a))); lia.
Qed.

Lemma cut_at_last_sep (a b : str) :
  no_sep b ->
  take (Z.to_nat (rfind (a ++ sep :: b) + 1)) (a ++ sep :: b) = a ++ [sep]
  /\ drop (Z.to_nat (rfind (a ++ sep :: b) + 1)) (a ++ sep :: b) = b.
Proof.
  intros Hb. rewrite (rfind_last_sep a b Hb).
  replace (Z.to_nat (Z.of_nat (length a) + 1)) with (length (a ++ [sep]))
    by (rewrite length_app; simpl; lia).
  replace (a ++ sep :: b) with ((a ++ [sep]) ++ b)
    by (rewrite <- app_assoc; reflexivity).
  split; [apply take_app_length|apply drop_app_length].
Qed.

Lemma cut_no_sep (b : str) :
  no_sep b ->
  take (Z.to_nat (rfind b + 1)) b = [] /\ drop (Z.to_nat (rfind b + 1)) b = b.
Proof.
  intros Hb. rewrite (rfind_no_sep b Hb). simpl. split; [apply take_0|apply drop_0].
Qed.

Lemma lstrip_by_replicate (f : Z -> bool) (n : nat) (c : Z) (s : str) :
  f c = true -> lstrip_by f (replicate n c ++ s) = lstrip_by f s.
Proof.
  intros Hc. induction n as [|n IH]; simpl; [reflexivity|].
  rewrite Hc. exact IH.
Qed.

Lemma rev_replicate (n : nat) (c : Z) : rev (replicate n c) = replicate n c.
Proof. rewrite rev_alt. apply (reverse_replicate n c). Qed.

Lemma rstrip_by_trailing (y : str) (c : Z) (m : nat) :
  is_sep c = false ->
  rstrip_by is_sep ((y ++ [c]) ++ replicate m sep) = y ++ [c].
Proof.
  intros Hc. unfold rstrip_by.
  rewrite rev_app_distr, rev_replicate.
  rewrite (lstrip_by_replicate is_sep m sep _ is_sep_sep).
  rewrite rev_app_distr. simpl. rewrite Hc. simpl.
  rewrite rev_involutive. reflexivity.
Qed.

Lemma trim_head_seps (n : nat) : trim_head (replicate n sep) = replicate n sep.
Proof.
  unfold trim_head. rewrite length_replicate.
  rewrite (bool_decide_eq_true_2 (replicate n sep = replicate n sep) eq_refl).
  simpl. rewrite andb_false_r. reflexivity.
Qed.

Lemma trim_head_trailing (y : str) (c : Z) (m : nat) :
  is_sep c = false ->
  trim_head ((y ++ [c]) ++ replicate m sep) = y ++ [c].
Proof.
  intros Hc. unfold trim_head.
  rewrite bool_decide_eq_false_2.
  2:{ destruct y; discriminate. }
  rewrite bool_decide_eq_false_2.
  2:{ intros Heq.
      assert (Hin : c ∈ (y ++ [c]) ++ replicate m sep).
      { apply elem_of_app. left. apply elem_of_app. right. constructor. }
      rewrite Heq in Hin. apply elem_of_replicate_inv in Hin. subst c.
      rewrite is_sep_sep in Hc. discriminate. }
  simpl. apply rstrip_by_trailing, Hc.
Qed.

Lemma no_sep_dummy : no_sep (lit "dummy").
Proof. repeat constructor. Qed.

Lemma project_name_seps (n : nat) : project_name (replicate n sep) = [].
Proof.
  unfold project_name, join, dirname, split.
  change (startswith_sep (lit "dummy")) with false. cbv iota.
  destruct n as [|n].
  - simpl replicate. rewrite (bool_decide_eq_true_2 _ (eq_refl (@nil Z))).
    simpl orb. cbv iota. simpl app.
    destruct (cut_no_sep _ no_sep_dummy) as [-> _].
    change (trim_head []) with (@nil Z). reflexivity.
  - assert (He : endswith_sep (replicate (S n) sep) = true).
    { unfold endswith_sep. rewrite replicate_S_end, last_snoc. reflexivity. }
    rewrite He, orb_true_r. cbv iota.
    rewrite replicate_S_end, <- app_assoc. simpl app.
    destruct (cut_at_last_sep (replicate n sep) _ no_sep_dummy) as [-> _].
    rewrite <- replicate_S_end, trim_head_seps.
    rewrite replicate_S_end.
    replace (replicate n sep ++ [sep]) with (replicate n sep ++ sep :: [])
      by reflexivity.
    destruct (cut_at_last_sep (replicate n sep) [] (List.Forall_nil _)) as [_ ->].
    reflexivity.
Qed.

Lemma project_name_segment (pre seg : str) (c : Z) (n : nat) :
  no_sep (seg ++ [c]) ->
  pre = [] \/ (exists q, pre = q ++ [sep]) ->
  project_name (pre ++ (seg ++ [c]) ++ replicate n sep) = seg ++ [c].
Proof.
  intros Hseg Hpre.
  assert (Hc : is_sep c = false).
  { apply Forall_app in Hseg as [_ Hc]. inversion Hc. assumption. }
  unfold project_name.
  assert (Hjoin : exists m,
    join (pre ++ (seg ++ [c]) ++ replicate n sep) (lit "dummy")
    = ((pre ++ seg) ++ [c]) ++ replicate m sep ++ sep :: lit "dummy").
  { unfold join. change (startswith_sep (lit "dummy")) with false. cbv iota.
    rewrite bool_decide_eq_false_2.
    2:{ destruct pre, seg; discriminate. }
    simpl orb. destruct n as [|n].
    - exists O. simpl replicate. rewrite app_nil_r.
      unfold endswith_sep. rewrite (app_assoc pre), last_snoc, Hc.
      rewrite <- !app_assoc. reflexivity.
    - exists n. unfold endswith_sep.
      rewrite replicate_S_end, !app_assoc, last_snoc, is_sep_sep.
      rewrite <- !app_assoc. reflexivity. }
  destruct Hjoin as [m ->].
  unfold dirname.
  rewrite (app_assoc _ (replicate m sep)).
  destruct (cut_at_last_sep (((pre ++ seg) ++ [c]) ++ replicate m sep) _
              no_sep_dummy) as [-> _].
  rewrite <- app_assoc, <- replicate_S_end.
  rewrite (trim_head_trailing _ c (S m) Hc).
  unfold split. simpl snd.
  rewrite <- app_assoc.
  destruct Hpre as [-> | [q ->]].
  - simpl app. destruct (cut_no_sep _ Hseg) as [_ ->]. reflexivity.
  - rewrite <- app_assoc. simpl app.
    destruct (cut_at_last_sep q _ Hseg) as [_ ->]. reflexivity.
Qed.

Lemma split_on_sep_cons (p : str) : exists s ss, split_on_sep p = s :: ss.
Proof.
  destruct p as [|c r]; simpl; [eauto|].
  destruct (is_sep c); [eauto|].
  destruct (split_on_sep r); eauto.
Qed.

Lemma split_on_sep_no_sep (b : str) : no_sep b -> split_on_sep b = [b].
Proof.
  induction 1 as [|c r Hc _ IH]; simpl; [reflexivity|].
  rewrite Hc, IH. reflexivity.
Qed.

Lemma split_on_sep_app (a b : str) :
  split_on_sep (a ++ sep :: b) = split_on_sep a ++ split_on_sep b.
Proof.
  induction a as [|c a IH]; simpl.
  - reflexivity.
  - rewrite IH. destruct (is_sep c); [reflexivity|].
    destruct (split_on_sep_cons a) as (s & ss & ->). reflexivity.
Qed.

Lemma segments_app (a b : str) :
  segments (a ++ sep :: b) = segments a ++ segments b.
Proof. unfold segments. rewrite split_on_sep_app. apply List.filter_app. Qed.

Lemma segments_seps (n : nat) : segments (replicate n sep) = [].
Proof.
  induction n as [|n IH]; [reflexivity|].
  change (replicate (S n) sep) with ([] ++ sep :: replicate n sep).
  rewrite segments_app, IH. reflexivity.
Qed.

Lemma segments_no_sep (seg : str) (c : Z) :
  no_sep (seg ++ [c]) -> segments (seg ++ [c]) = [seg ++ [c]].
Proof.
  intros H. unfold segments. rewrite (split_on_sep_no_sep _ H).
  destruct seg; reflexivity.
Qed.

Lemma final_segment_seps (n : nat) : final_segment (replicate n sep) = [].
Proof. unfold final_segment. rewrite segments_seps. reflexivity. Qed.

Lemma final_segment_segment (pre seg : str) (c : Z) (n : nat) :
  no_sep (seg ++ [c]) ->
  pre = [] \/ (exists q, pre = q ++ [sep]) ->
  final_segment (pre ++ (seg ++ [c]) ++ replicate n sep) = seg ++ [c].
Proof.
  intros Hseg Hpre.
  assert (Hlast : segments ((seg ++ [c]) ++ replicate n sep) = [seg ++ [c]]).
  { destruct n as [|n].
    - simpl replicate. rewrite app_nil_r. apply segments_no_sep, Hseg.
    - rewrite replicate_S, segments_app, segments_seps, app_nil_r.
      apply segments_no_sep, Hseg. }
  unfold final_segment.
  destruct Hpre as [-> | [q ->]].
  - simpl app. rewrite Hlast. reflexivity.
  - rewrite <- app_assoc. simpl app. rewrite segments_app, Hlast, last_snoc.
    reflexivity.
Qed.

(** Every path is a run of separators, or ends with a segment followed by a
    run of separators. *)
Lemma path_shape (p : str) :
  (exists n, p = replicate n sep)
  \/ (exists pre seg c n,
        p = pre ++ (seg ++ [c]) ++ replicate n sep
        /\ no_sep (seg ++ [c])
        /\ (pre = [] \/ exists q, pre = q ++ [sep])).
Proof.
  induction p as [|x p IH] using rev_ind.
  - left. exists O. reflexivity.
  - destruct (is_sep x) eqn:Hx.
    + apply Z.eqb_eq in Hx. subst x.
      destruct IH as [[n ->] | (pre & seg & c & n & -> & Hseg & Hpre)].
      * left. exists (S n). rewrite replicate_S_end. reflexivity.
      * right. exists pre, seg, c, (S n). split; [|split; assumption].
        rewrite replicate_S_end, <- !app_assoc. reflexivity.
    + destruct IH as [[n ->] | (pre & seg & c & n & -> & Hseg & Hpre)].
      * right. exists (replicate n sep), [], x, O. split; [|split].
        -- simpl. reflexivity.
        -- constructor; [exact Hx|constructor].
        -- destruct n as [|n]; [left; reflexivity|right].
           exists (replicate n sep). apply replicate_S_end.
      * right. destruct n as [|n].
        -- exists pre, (seg ++ [c]), x, O. split; [|split].
           ++ simpl. rewrite !app_nil_r, <- !app_assoc. reflexivity.
           ++ apply Forall_app. split; [exact Hseg|].
              constructor; [exact Hx|constructor].
           ++ exact Hpre.
        -- exists (pre ++ (seg ++ [c]) ++ replicate (S n) sep), [], x, O.
           split; [|split].
           ++ simpl. rewrite <- !app_assoc. reflexivity.
           ++ constructor; [exact Hx|constructor].
           ++ right. exists (pre ++ (seg ++ [c]) ++ replicate n sep).
              rewrite replicate_S_end, <- !app_assoc. reflexivity.
Qed.

Lemma project_name_final_segment (p : str) (n : nat) :
  project_name (p ++ replicate n sep) = final_segment p.
Proof.
  destruct (path_shape p) as [[k ->] | (pre & seg & c & k & -> & Hseg & Hpre)].
  - rewrite <- replicate_add, project_name_seps, final_segment_seps.
    reflexivity.
  - replace ((pre ++ (seg ++ [c]) ++ replicate k sep) ++ replicate n sep)
      with (pre ++ (seg ++ [c]) ++ replicate (k + n) sep)
      by (rewrite replicate_add, <- !app_assoc; reflexivity).
    rewrite (project_name_segment pre seg c (k + n) Hseg Hpre).
    rewrite (final_segment_segment pre seg c k Hseg Hpre). reflexivity.
Qed.

End PathFacts.

(** C3, as stated, fails: for the project directory /home/u/proj the script
    derives proj, the final segment of the directory itself, while the final
    segment of its parent directory is u (also by [posixpath]: the last
    component of [dirname]). *)
Lemma parent_segment_counterexample :
  project_name (lit "/home/u/proj") = lit "proj"
  /\ parent_final_segment (lit "/home/u/proj") = lit "u"
  /\ snd (posixpath.split (posixpath.dirname (lit "/home/u/proj"))) = lit "u"
  /\ project_name (lit "/home/u/proj")
     <> parent_final_segment (lit "/home/u/proj").
Proof.
  split; [|split; [|split]].
  - vm_compute. reflexivity.
  - vm_compute. reflexivity.
  - vm_compute. reflexivity.
  - vm_compute. discriminate.
Qed.

(** C3, amended: for any project directory P the derived project name is the
    final path segment of P itself, which is the final segment of the parent
    of the synthetic path P/dummy, however many separators trail P; and a
    completed run registers that name, in double quotes, as PROJECT_PATH. *)
Theorem project_name_is_final_segment (p : str) (n : nat) :
  project_name (p ++ replicate n posixpath.sep) = final_segment p
  /\ forall w e,
       vars e !! "PROJECT_DIR"%string
       = Some (VStr (p ++ replicate n posixpath.sep)) ->
       fst (run w e) = Ret tt ->
       lookup_define (lit "PROJECT_PATH") (registered e (snd (run w e)))
       = Some (quoted (final_segment p)).
Proof.
  split; [apply project_name_final_segment|].
  intros w e Hdir Hr.
  destruct (run_returns w e Hr) as (dir & b & h & Hdir' & _ & _ & Henv & _).
  assert (dir = p ++ replicate n posixpath.sep) by congruence. subst dir.
  rewrite (registered_app e _ _ (f_equal CPPDEFINES Henv)).
  rewrite <- (project_name_final_segment p n). reflexivity.
Qed.

Lemma project_name_is_final_segment_witness :
  lookup_define (lit "PROJECT_PATH")
    (registered (env_of (lit "/home/u/proj//"))
       (snd (run world_main (env_of (lit "/home/u/proj//")))))
  = Some (quoted (lit "proj")).
Proof.
  apply (proj2 (project_name_is_final_segment (lit "/home/u/proj") 2)
           world_main (env_of (lit "/home/u/proj//")));
    reflexivity.
Defined.

(** ** The build timestamp *)

Lemma forall_below (P : Z -> bool) (n : Z) :
  List.forallb P (List.map Z.of_nat (List.seq 0 (Z.to_nat n))) = true ->
  forall k, 0 <= k < n -> P k = true.
Proof.
  intros H k Hk. rewrite List.forallb_forall in H. apply H.
  apply List.in_map_iff. exists (Z.to_nat k). split; [lia|].
  apply List.in_seq. lia.
Qed.

Lemma fmt_d_2 (n : Z) :
  0 <= n < 100 -> fmt_d 2 n = [digit_char (n / 10); digit_char (n mod 10)].
Proof.
  intros Hn.
  apply (bool_decide_eq_true_1 (fmt_d 2 n = [digit_char (n / 10); digit_char (n mod 10)])).
  revert n Hn.
  apply (forall_below
           (fun k => bool_decide
                       (fmt_d 2 k = [digit_char (k / 10); digit_char (k mod 10)]))
           100).
  vm_compute. reflexivity.
Qed.

Lemma fmt_d_4 (n : Z) :
  0 <= n < 10000 ->
  fmt_d 4 n = [digit_char (n / 1000); digit_char ((n / 100) mod 10);
               digit_char ((n / 10) mod 10); digit_char (n mod 10)].
Proof.
  intros Hn.
  apply (bool_decide_eq_true_1
           (fmt_d 4 n = [digit_char (n / 1000); digit_char ((n / 100) mod 10);
                         digit_char ((n / 10) mod 10); digit_char (n mod 10)])).
  revert n Hn.
  apply (forall_below
           (fun k => bool_decide
                       (fmt_d 4 k
                        = [digit_char (k / 1000); digit_char ((k / 100) mod 10);
                           digit_char ((k / 10) mod 10); digit_char (k mod 10)]))
           10000).
  vm_compute. reflexivity.
Qed.

Lemma two_digits_digit_char (a b : Z) :
  0 <= a <= 9 -> 0 <= b <= 9 ->
  two_digits (digit_char a) (digit_char b) = Some (10 * a + b).
Proof.
  intros Ha Hb. unfold two_digits, digit_val, digit_char.
  destruct (Z.leb_spec 48 (48 + a)); [|lia].
  destruct (Z.leb_spec (48 + a) 57); [|lia].
  destruct (Z.leb_spec 48 (48 + b)); [|lia].
  destruct (Z.leb_spec (48 + b) 57); [|lia].
  simpl. f_equal. lia.
Qed.

Lemma two_digits_fmt (n : Z) :
  0 <= n < 100 ->
  two_digits (digit_char (n / 10)) (digit_char (n mod 10)) = Some n.
Proof.
  intros Hn. rewrite two_digits_digit_char.
  - f_equal. Z.div_mod_to_equations. lia.
  - Z.div_mod_to_equations. lia.
  - Z.div_mod_to_equations. lia.
Qed.

Lemma four_digits_fmt (n : Z) :
  0 <= n < 10000 ->
  four_digits (digit_char (n / 1000)) (digit_char ((n / 100) mod 10))
              (digit_char ((n / 10) mod 10)) (digit_char (n mod 10)) = Some n.
Proof.
  intros Hn. unfold four_digits.
  rewrite !two_digits_digit_char by (Z.div_mod_to_equations; lia).
  f_equal. Z.div_mod_to_equations. lia.
Qed.

Ltac split_bools :=
  repeat match goal with
         | H : _ && _ = true |- _ =>
             apply andb_true_iff in H; destruct H
         | H : (_ <=? _) = true |- _ => apply Z.leb_le in H
         | H : (_ <? _) = true |- _ => apply Z.ltb_lt in H
         end.

Lemma days_in_month_le (y m : Z) : days_in_month y m <= 31.
Proof.
  unfold days_in_month.
  destruct (m =? 2); [destruct (is_leap y); lia|].
  destruct ((m =? 4) || (m =? 6) || (m =? 9) || (m =? 11)); lia.
Qed.

Lemma check_fields_truncated (y m d hh mi ss us : Z) :
  check_fields y m d hh mi ss us = true ->
  check_fields y m d hh mi ss 0 = true.
Proof.
  unfold check_fields. intros H.
  apply andb_true_iff in H as [H _]. apply andb_true_iff in H as [H _].
  rewrite H. reflexivity.
Qed.

Lemma parse_offset_format (off : Z) :
  check_offset off = true ->
  parse_offset (format_offset (Some off)) = Some (Some off).
Proof.
  unfold check_offset. intros H. split_bools.
  unfold format_offset.
  rewrite !fmt_d_2 by (Z.div_mod_to_equations; lia).
  assert (Hsign : parse_sign (if off <? 0 then 45 else 43)
                  = Some (if off <? 0 then -1 else 1))
    by (destruct (off <? 0); reflexivity).
  destruct (Z.eqb_spec ((Z.abs off mod 3600) mod 60) 0) as [Hss|Hss].
  - cbn [app parse_offset]. rewrite Hsign.
    rewrite !two_digits_fmt by (Z.div_mod_to_equations; lia).
    cbn. do 2 f_equal.
    destruct (Z.ltb_spec off 0); Z.div_mod_to_equations; lia.
  - cbn [app parse_offset]. rewrite Hsign.
    rewrite !two_digits_fmt by (Z.div_mod_to_equations; lia).
    cbn. do 2 f_equal.
    destruct (Z.ltb_spec off 0); Z.div_mod_to_equations; lia.
Qed.

Lemma fromisoformat_isoformat (now : datetime) (off : Z) :
  valid_naive now = true ->
  check_offset off = true ->
  fromisoformat (isoformat (astimezone off (replace_microsecond now 0)) 32)
  = Some (astimezone off (replace_microsecond now 0)).
Proof.
  destruct now as [y m d hh mi ss us tz].
  unfold valid_naive. cbn [year month day hour minute second microsecond].
  intros Hv Hoff. apply andb_true_iff in Hv as [Hv _].
  pose proof (check_fields_truncated _ _ _ _ _ _ _ Hv) as Hv0.
  pose proof (days_in_month_le y m) as Hdim.
  unfold check_fields in Hv. split_bools.
  unfold isoformat, format_time, astimezone, replace_microsecond.
  cbn [year month day hour minute second microsecond utcoffset].
  rewrite fmt_d_4, !fmt_d_2 by lia.
  change (0 =? 0) with true. cbv iota.
  cbn [app]. unfold fromisoformat.
  rewrite four_digits_fmt, !two_digits_fmt by lia.
  rewrite (parse_offset_format off Hoff), Hv0, Hoff.
  reflexivity.
Qed.

Lemma format_offset_explicit (off : Z) :
  check_offset off = true ->
  format_offset (Some off)
  = (if off <? 0 then 45 else 43)
      :: digit_char (Z.abs off / 3600 / 10)
      :: digit_char ((Z.abs off / 3600) mod 10)
      :: 58
      :: digit_char ((Z.abs off mod 3600) / 60 / 10)
      :: digit_char (((Z.abs off mod 3600) / 60) mod 10)
      :: (if (Z.abs off mod 3600) mod 60 =? 0 then []
          else [58; digit_char ((Z.abs off mod 3600) mod 60 / 10);
                digit_char (((Z.abs off mod 3600) mod 60) mod 10)]).
Proof.
  unfold check_offset. intros H. split_bools.
  unfold format_offset.
  rewrite !fmt_d_2 by (Z.div_mod_to_equations; lia).
  reflexivity.
Qed.

Lemma isoformat_explicit (y m d hh mi ss us : Z) (tz : option Z) (off : Z) :
  check_fields y m d hh mi ss us = true ->
  isoformat (astimezone off
               (replace_microsecond (mk_datetime y m d hh mi ss us tz) 0)) 32
  = [digit_char (y / 1000); digit_char ((y / 100) mod 10);
     digit_char ((y / 10) mod 10); digit_char (y mod 10); 45;
     digit_char (m / 10); digit_char (m mod 10); 45;
     digit_char (d / 10); digit_char (d mod 10); 32;
     digit_char (hh / 10); digit_char (hh mod 10); 58;
     digit_char (mi / 10); digit_char (mi mod 10); 58;
     digit_char (ss / 10); digit_char (ss mod 10)]
    ++ format_offset (Some off).
Proof.
  intros Hv. pose proof (days_in_month_le y m) as Hdim.
  unfold check_fields in Hv. split_bools.
  unfold isoformat, format_time, astimezone, replace_microsecond.
  cbn [year month day hour minute second microsecond utcoffset].
  rewrite fmt_d_4, !fmt_d_2 by lia.
  reflexivity.
Qed.











(** * Further properties of the script *)

(** ** The git queries and the run *)

Lemma lstrip_by_all (f : Z -> bool) (s : str) :
  Forall (fun c => f c = true) s -> lstrip_by f s = [].
Proof.
  induction 1 as [|c r Hc _ IH]; simpl; [reflexivity|].
  rewrite Hc. exact IH.
Qed.

Lemma strip_blank (s : str) :
  Forall (fun c => isspace c = true) s -> strip s = [].
Proof.
  intros H. unfold strip. rewrite (lstrip_by_all isspace s H). reflexivity.
Qed.

(** X1: a git query that succeeds with empty or all-white-space output (as
    the branch query does on a detached HEAD) returns the empty string, not
    the sentinel N/A; a completed run then registers BRANCH_NAME as two
    double quotes with nothing between them. *)
Theorem blank_output_gives_empty_string (w : World) (out : bytes) (s : str) :
  popen w branch_args true = Exited 0 out ->
  utf8_decode out = Some s ->
  Forall (fun c => isspace c = true) s ->
  (forall st, get_git_current_branch w st
              = (Ret [], log (EvPopen branch_args true) st))
  /\ (forall e, fst (run w e) = Ret tt ->
        lookup_define (lit "BRANCH_NAME") (registered e (snd (run w e)))
        = Some [dquote; dquote]).
Proof.
  intros Hp Hdec Hs.
  assert (Hq : git_query (popen w branch_args true) = Ret []).
  { rewrite Hp. simpl. rewrite Hdec, (strip_blank s Hs). reflexivity. }
  split.
  - intros st. rewrite get_git_current_branch_eq, Hq. reflexivity.
  - intros e Hr.
    destruct (run_returns w e Hr) as (dir & b & h & _ & Hb & _ & Henv & _).
    rewrite Hq in Hb. injection Hb as <-.
    rewrite (registered_app e _ _ (f_equal CPPDEFINES Henv)). reflexivity.
Qed.

Lemma blank_output_gives_empty_string_witness :
  lookup_define (lit "BRANCH_NAME")
    (registered (env_of (lit "/home/u/proj"))
       (snd (run world_detached (env_of (lit "/home/u/proj")))))
  = Some [dquote; dquote].
Proof.
  apply (proj2 (blank_output_gives_empty_string world_detached [] []
                  eq_refl eq_refl (List.Forall_nil _))).
  reflexivity.
Defined.

Lemma utf8_decode_ascii (out : bytes) :
  Forall (fun b => byte_val b < 128) out ->
  utf8_decode out = Some (List.map byte_val out).
Proof.
  induction 1 as [|b r Hb _ IH]; [reflexivity|].
  cbn [utf8_decode List.map]. cbv zeta.
  destruct (Z.ltb_spec (byte_val b) 128); [|lia].
  rewrite IH. reflexivity.
Qed.

(** X2: when a git query succeeds and every byte of its output is ASCII,
    decoding cannot fail: the query returns those characters, stripped. *)
Theorem ascii_output_never_fails_to_decode (w : World) (st : state)
    (out : bytes) :
  Forall (fun b => byte_val b < 128) out ->
  (popen w branch_args true = Exited 0 out ->
   get_git_current_branch w st
   = (Ret (strip (List.map byte_val out)), log (EvPopen branch_args true) st))
  /\ (popen w rev_parse_args true = Exited 0 out ->
      get_git_revision_short_hash w st
      = (Ret (strip (List.map byte_val out)),
         log (EvPopen rev_parse_args true) st)).
Proof.
  intros Hascii. split; intros Hp.
  - rewrite get_git_current_branch_eq, Hp. simpl.
    rewrite (utf8_decode_ascii out Hascii). reflexivity.
  - rewrite get_git_revision_short_hash_eq, Hp. simpl.
    rewrite (utf8_decode_ascii out Hascii). reflexivity.
Qed.

Lemma ascii_output_never_fails_to_decode_witness :
  get_git_revision_short_hash world_main (mk_state env_without_project_dir [])
  = (Ret (lit "abc1234"),
     mk_state env_without_project_dir [EvPopen rev_parse_args true]).
Proof.
  apply (proj2 (ascii_output_never_fails_to_decode world_main
                  (mk_state env_without_project_dir [])
                  (blit "abc1234" ++ [x0a]%byte)
                  ltac:(repeat constructor))).
  reflexivity.
Defined.

(** X3: [OSError], raised when a child cannot be started, is not caught by
    [except CalledProcessError]. If it strikes the branch query, the run ends
    there with nothing registered and the hash query is never started; if
    it strikes the hash query, the run ends after both children, again with
    nothing registered. *)
Theorem spawn_failure_is_not_caught (w : World) (e : Env) (dir : str) :
  vars e !! "PROJECT_DIR"%string = Some (VStr dir) ->
  (popen w branch_args true = SpawnFailed ->
   run w e = (Raise OSError,
              mk_state e [EvGetItem "PROJECT_DIR"; EvNow;
                          EvPopen branch_args true]))
  /\ (forall b, git_query (popen w branch_args true) = Ret b ->
      popen w rev_parse_args true = SpawnFailed ->
      run w e = (Raise OSError,
                 mk_state e [EvGetItem "PROJECT_DIR"; EvNow;
                             EvPopen branch_args true;
                             EvPopen rev_parse_args true])).
Proof.
  intros Hdir. split.
  - intros Hp. rewrite (run_str w e dir Hdir), Hp. reflexivity.
  - intros b Hb Hp. rewrite (run_str w e dir Hdir), Hb, Hp. reflexivity.
Qed.

Lemma spawn_failure_is_not_caught_witness :
  run world_no_shell (env_of (lit "/home/u/proj"))
  = (Raise OSError,
     mk_state (env_of (lit "/home/u/proj"))
              [EvGetItem "PROJECT_DIR"; EvNow; EvPopen branch_args true]).
Proof.
  apply (proj1 (spawn_failure_is_not_caught world_no_shell
                  (env_of (lit "/home/u/proj")) (lit "/home/u/proj")
                  eq_refl)).
  reflexivity.
Defined.

(** X4: the actions of every run are an initial part of one fixed
    sequence: read [PROJECT_DIR], read the clock, start the branch query,
    start the hash query, append the definitions. The first action always
    happens, and the sequence is complete exactly when the run returns. *)
Theorem trace_follows_script_order (w : World) (e : Env) :
  exists defs rest,
    full_trace defs = st_trace (snd (run w e)) ++ rest
    /\ st_trace (snd (run w e)) <> []
    /\ (rest = [] <-> fst (run w e) = Ret tt).
Proof.
  destruct (project_dir_cases e) as [H | [[l H] | [dir H]]].
  - rewrite (run_missing w e H). simpl. eexists [], _.
    split; [reflexivity|]. split; [discriminate|]. split; discriminate.
  - rewrite (run_not_pathlike w e l H). simpl. eexists [], _.
    split; [reflexivity|]. split; [discriminate|]. split; discriminate.
  - rewrite (run_str w e dir H). simpl.
    destruct (git_query (popen w branch_args true)) as [b|x].
    + destruct (git_query (popen w rev_parse_args true)) as [h|x]; simpl.
      * exists (new_defines w dir b h), []. split; [reflexivity|].
        split; [discriminate|]. split; reflexivity.
      * eexists [], _. split; [reflexivity|].
        split; [discriminate|]. split; discriminate.
    + simpl. eexists [], _. split; [reflexivity|].
      split; [discriminate|]. split; discriminate.
Qed.

(** X5: a run depends on the environment only through [PROJECT_DIR]: in
    the same world, two environments that agree on it give the same result,
    the same actions and the same registered definitions, and each keeps its
    own construction variables. *)
Theorem run_reads_only_project_dir (w : World) (e1 e2 : Env) :
  vars e1 !! "PROJECT_DIR"%string = vars e2 !! "PROJECT_DIR"%string ->
  fst (run w e1) = fst (run w e2)
  /\ st_trace (snd (run w e1)) = st_trace (snd (run w e2))
  /\ registered e1 (snd (run w e1)) = registered e2 (snd (run w e2))
  /\ vars (st_env (snd (run w e1))) = vars e1
  /\ vars (st_env (snd (run w e2))) = vars e2.
Proof.
  intros Hsame.
  destruct (project_dir_cases e1) as [H1 | [[l H1] | [dir H1]]];
    pose proof H1 as H2; rewrite Hsame in H2.
  - rewrite (run_missing w e1 H1), (run_missing w e2 H2). simpl.
    rewrite !registered_same. auto.
  - rewrite (run_not_pathlike w e1 l H1), (run_not_pathlike w e2 l H2). simpl.
    rewrite !registered_same. auto.
  - rewrite (run_str w e1 dir H1), (run_str w e2 dir H2). simpl.
    destruct (git_query (popen w branch_args true)) as [b|x].
    + destruct (git_query (popen w rev_parse_args true)) as [h|x]; simpl.
      * unfold registered. simpl. rewrite !drop_app_length. auto.
      * rewrite !registered_same. auto.
    + simpl. rewrite !registered_same. auto.
Qed.

Lemma run_reads_only_project_dir_witness :
  registered env_rich (snd (run world_main env_rich))
  = registered (env_of (lit "/home/u/proj"))
               (snd (run world_main (env_of (lit "/home/u/proj")))).
Proof.
  apply (run_reads_only_project_dir world_main env_rich
           (env_of (lit "/home/u/proj"))).
  reflexivity.
Defined.

(** X13: a second invocation on the environment left by a completed one
    completes too and appends the same four definitions again: nothing is
    replaced or deduplicated. *)
Theorem second_invocation_appends_again (w : World) (e : Env) :
  fst (run w e) = Ret tt ->
  let e' := st_env (snd (run w e)) in
  fst (run w e') = Ret tt
  /\ registered e' (snd (run w e')) = registered e (snd (run w e))
  /\ CPPDEFINES (st_env (snd (run w e')))
     = CPPDEFINES e ++ registered e (snd (run w e))
       ++ registered e (snd (run w e)).
Proof.
  intros Hr e'. subst e'.
  destruct (run_returns w e Hr) as (dir & b & h & Hdir & Hb & Hh & Henv & _).
  rewrite (registered_app e _ _ (f_equal CPPDEFINES Henv)).
  rewrite Henv.
  set (e' := mk_env (vars e) (CPPDEFINES e ++ new_defines w dir b h)).
  assert (Hdir' : vars e' !! "PROJECT_DIR"%string = Some (VStr dir))
    by exact Hdir.
  rewrite (run_str w e' dir Hdir'), Hb, Hh. simpl.
  split; [reflexivity|]. split.
  - apply registered_app. reflexivity.
  - rewrite <- app_assoc. reflexivity.
Qed.

Lemma second_invocation_appends_again_witness :
  length (CPPDEFINES
            (st_env (snd (run world_main
                            (st_env (snd (run world_main env_rich)))))))
  = 9%nat.
Proof.
  destruct (second_invocation_appends_again world_main env_rich eq_refl)
    as (_ & _ & H).
  rewrite H. reflexivity.
Defined.

(** ** The project name *)

Section PathNormalisation.

Import posixpath.

Lemma project_name_cases (p : str) :
  ((exists n, p = replicate n sep) /\ project_name p = [])
  \/ (exists seg c, no_sep (seg ++ [c]) /\ project_name p = seg ++ [c]
                    /\ ~ (exists n, p = replicate n sep)).
Proof.
  destruct (path_shape p) as [[k ->] | (pre & seg & c & k & -> & Hseg & Hpre)].
  - left. split; [eauto|apply project_name_seps].
  - right. exists seg, c. split; [exact Hseg|]. split.
    + apply project_name_segment; assumption.
    + intros [n Hn].
      assert (Hc : is_sep c = false).
      { apply Forall_app in Hseg as [_ Hc]. inversion Hc. assumption. }
      assert (Hin : c ∈ pre ++ (seg ++ [c]) ++ replicate k sep).
      { apply elem_of_app. right. apply elem_of_app. left.
        apply elem_of_app. right. constructor. }
      rewrite Hn in Hin. apply elem_of_replicate_inv in Hin. subst c.
      rewrite is_sep_sep in Hc. discriminate.
Qed.

Lemma has_segment_shape (p : str) :
  ~ (exists n, p = replicate n sep) ->
  exists pre seg c n,
    p = pre ++ (seg ++ [c]) ++ replicate n sep
    /\ no_sep (seg ++ [c])
    /\ (pre = [] \/ exists q, pre = q ++ [sep]).
Proof.
  intros Hn. destruct (path_shape p) as [[k ->] | H]; [|exact H].
  exfalso. apply Hn. eauto.
Qed.

Lemma project_name_under_prefix (q p : str) :
  ~ (exists n, p = replicate n sep) ->
  project_name (q ++ sep :: p) = project_name p.
Proof.
  intros Hn.
  destruct (has_segment_shape p Hn) as (pre & seg & c & n & -> & Hseg & Hpre).
  rewrite (project_name_segment pre seg c n Hseg Hpre).
  replace (q ++ sep :: pre ++ (seg ++ [c]) ++ replicate n sep)
    with ((q ++ sep :: pre) ++ (seg ++ [c]) ++ replicate n sep)
    by (rewrite <- app_assoc; reflexivity).
  apply project_name_segment; [exact Hseg|].
  right. destruct Hpre as [-> | [q' ->]].
  - exists q. reflexivity.
  - exists (q ++ sep :: q'). rewrite <- app_assoc. reflexivity.
Qed.

Lemma dirname_join_seps (n : nat) :
  dirname (join (replicate n sep) (lit "dummy")) = replicate n sep.
Proof.
  unfold join, dirname.
  change (startswith_sep (lit "dummy")) with false. cbv iota.
  destruct n as [|n].
  - simpl replicate. rewrite (bool_decide_eq_true_2 _ (eq_refl (@nil Z))).
    simpl orb. cbv iota. simpl app.
    destruct (cut_no_sep _ no_sep_dummy) as [-> _]. reflexivity.
  - assert (He : endswith_sep (replicate (S n) sep) = true).
    { unfold endswith_sep. rewrite replicate_S_end, last_snoc. reflexivity. }
    rewrite He, orb_true_r. cbv iota.
    rewrite replicate_S_end, <- app_assoc. simpl app.
    destruct (cut_at_last_sep (replicate n sep) _ no_sep_dummy) as [-> _].
    rewrite <- replicate_S_end. apply trim_head_seps.
Qed.

Lemma dirname_join_trailing (y : str) (c : Z) (n : nat) :
  is_sep c = false ->
  dirname (join ((y ++ [c]) ++ replicate n sep) (lit "dummy")) = y ++ [c].
Proof.
  intros Hc.
  assert (Hjoin : exists m,
    join ((y ++ [c]) ++ replicate n sep) (lit "dummy")
    = ((y ++ [c]) ++ replicate m sep) ++ sep :: lit "dummy").
  { unfold join. change (startswith_sep (lit "dummy")) with false. cbv iota.
    rewrite bool_decide_eq_false_2.
    2:{ destruct y; discriminate. }
    simpl orb. destruct n as [|n].
    - exists O. simpl replicate. rewrite !app_nil_r.
      unfold endswith_sep. rewrite last_snoc, Hc. reflexivity.
    - exists n. unfold endswith_sep.
      rewrite replicate_S_end, !app_assoc, last_snoc, is_sep_sep.
      rewrite <- !app_assoc. reflexivity. }
  destruct Hjoin as [m ->]. unfold dirname.
  destruct (cut_at_last_sep ((y ++ [c]) ++ replicate m sep) _ no_sep_dummy)
    as [-> _].
  rewrite <- app_assoc, <- replicate_S_end.
  apply trim_head_trailing, Hc.
Qed.

End PathNormalisation.

(** X6: the derived project name never contains a path separator. *)
Theorem project_name_has_no_separator (p : str) :
  no_sep (project_name p)
  /\ forall c, c ∈ project_name p -> c <> posixpath.sep.
Proof.
  assert (H : no_sep (project_name p)).
  { destruct (project_name_cases p) as [[_ ->] | (seg & c & Hseg & -> & _)];
      [constructor|exact Hseg]. }
  split; [exact H|].
  intros c Hc ->. unfold no_sep in H. rewrite Forall_forall in H.
  specialize (H _ Hc). discriminate.
Qed.

(** X7: the derived project name is empty exactly when the project
    directory is the empty string or consists of separators only (the root
    directory). *)
Theorem project_name_empty_iff_only_separators (p : str) :
  project_name p = [] <-> exists n, p = replicate n posixpath.sep.
Proof.
  destruct (project_name_cases p) as [[Hn ->] | (seg & c & _ & -> & Hn)].
  - split; auto.
  - split; [destruct seg; discriminate|contradiction].
Qed.

(** X8: for a project directory that has a segment, the derived name does
    not change when directories are put in front of it, and deriving the
    name of the name gives the name again. *)
Theorem project_name_ignores_leading_directories (q p : str) :
  ~ (exists n, p = replicate n posixpath.sep) ->
  project_name (q ++ posixpath.sep :: p) = project_name p
  /\ project_name (project_name p) = project_name p.
Proof.
  intros Hn. split; [apply project_name_under_prefix, Hn|].
  destruct (project_name_cases p) as [[H _] | (seg & c & Hseg & -> & _)];
    [contradiction|].
  pose proof (project_name_segment [] seg c 0 Hseg (or_introl eq_refl)) as H.
  cbn [app replicate] in H. rewrite app_nil_r in H. exact H.
Qed.

Lemma project_name_ignores_leading_directories_witness :
  project_name (lit "/home/u" ++ posixpath.sep :: lit "proj/")
  = project_name (lit "proj/").
Proof.
  apply (project_name_ignores_leading_directories (lit "/home/u")
           (lit "proj/")).
  intros [n Hn].
  assert (Hlen : length (lit "proj/") = length (replicate n posixpath.sep))
    by (rewrite Hn; reflexivity).
  rewrite length_replicate in Hlen. subst n. discriminate Hn.
Defined.

(** X9: [dirname] of [join(dir, dummy)] is [dir] without its trailing
    separators when [dir] ends, up to separators, with a character that is
    not a separator; it is [dir] itself when [dir] holds separators only. *)
Theorem dirname_of_join_normalises (y : str) (c : Z) (n : nat) :
  (posixpath.is_sep c = false ->
   posixpath.dirname
     (posixpath.join ((y ++ [c]) ++ replicate n posixpath.sep) (lit "dummy"))
   = y ++ [c])
  /\ posixpath.dirname
       (posixpath.join (replicate n posixpath.sep) (lit "dummy"))
     = replicate n posixpath.sep.
Proof.
  split; [apply dirname_join_trailing|apply dirname_join_seps].
Qed.

Lemma dirname_of_join_normalises_witness :
  posixpath.dirname (posixpath.join (lit "/home/u/proj//") (lit "dummy"))
  = lit "/home/u/proj".
Proof.
  apply (proj1 (dirname_of_join_normalises (lit "/home/u/pro") 106 2)).
  reflexivity.
Defined.

(** ** The stamp *)

(** X10: the stamp has 25 characters when the UTC offset is a whole number
    of minutes and 28 otherwise. *)
Theorem stamp_length (w : World) (now : datetime) :
  valid_naive now = true ->
  check_offset (gmtoff w) = true ->
  length (tz_dt w now)
  = if Z.abs (gmtoff w) mod 60 =? 0 then 25%nat else 28%nat.
Proof.
  destruct now as [y m d hh mi ss us tz].
  unfold valid_naive. cbn [year month day hour minute second microsecond].
  intros Hv Hoff. apply andb_true_iff in Hv as [Hv _]. unfold tz_dt.
  rewrite (isoformat_explicit _ _ _ _ _ _ _ _ _ Hv).
  rewrite (format_offset_explicit _ Hoff).
  replace ((Z.abs (gmtoff w) mod 3600) mod 60) with (Z.abs (gmtoff w) mod 60)
    by (Z.div_mod_to_equations; lia).
  destruct (Z.abs (gmtoff w) mod 60 =? 0); reflexivity.
Qed.

Lemma stamp_length_witness :
  length (tz_dt world_no_repo sample_clock) = 25%nat.
Proof.
  apply (stamp_length world_no_repo sample_clock); reflexivity.
Defined.

Lemma digit_char_stamp (x : Z) :
  0 <= x <= 9 -> is_stamp_char (digit_char x) = true.
Proof.
  intros Hx. unfold is_stamp_char, digit_char.
  destruct (Z.leb_spec 48 (48 + x)); [|lia].
  destruct (Z.leb_spec (48 + x) 57); [|lia]. reflexivity.
Qed.

Ltac stamp_chars :=
  repeat (apply List.Forall_cons;
          [first [reflexivity
                 | apply digit_char_stamp; Z.div_mod_to_equations; lia]|]);
  try apply List.Forall_nil.

Lemma stamp_chars_only (now : datetime) (off : Z) :
  valid_naive now = true ->
  check_offset off = true ->
  Forall (fun c => is_stamp_char c = true)
         (isoformat (astimezone off (replace_microsecond now 0)) 32).
Proof.
  destruct now as [y m d hh mi ss us tz].
  unfold valid_naive. cbn [year month day hour minute second microsecond].
  intros Hv Hoff. apply andb_true_iff in Hv as [Hv _].
  pose proof (days_in_month_le y m) as Hdim.
  rewrite (isoformat_explicit _ _ _ _ _ _ _ _ _ Hv).
  rewrite (format_offset_explicit off Hoff).
  unfold check_fields in Hv. unfold check_offset in Hoff. split_bools.
  apply Forall_app. split; [stamp_chars|].
  apply List.Forall_cons; [destruct (off <? 0); reflexivity|].
  destruct ((Z.abs off mod 3600) mod 60 =? 0); stamp_chars.
Qed.

(** X12: the stamp consists of decimal digits, hyphens, colons, one space
    and the sign of the offset; it holds no double quote and no backslash,
    so the quoted CURRENT_TIME needs no escaping. *)
Theorem stamp_needs_no_escaping (w : World) (now : datetime) :
  valid_naive now = true ->
  check_offset (gmtoff w) = true ->
  Forall (fun c => is_stamp_char c = true) (tz_dt w now)
  /\ (dquote ∉ tz_dt w now)
  /\ (92 ∉ tz_dt w now).
Proof.
  intros Hv Hoff.
  pose proof (stamp_chars_only now (gmtoff w) Hv Hoff) as H.
  split; [exact H|].
  rewrite Forall_forall in H.
  split; intros Hin; specialize (H _ Hin); discriminate.
Qed.

Lemma stamp_needs_no_escaping_witness :
  dquote ∉ tz_dt world_main sample_clock.
Proof.
  apply (stamp_needs_no_escaping world_main sample_clock); reflexivity.
Defined.

(** X11: two stamps are equal exactly when the clock readings agree up to
    the second and the UTC offsets are equal. *)
Theorem stamp_determines_second_and_offset (w1 w2 : World)
    (n1 n2 : datetime) :
  valid_naive n1 = true -> valid_naive n2 = true ->
  check_offset (gmtoff w1) = true -> check_offset (gmtoff w2) = true ->
  (tz_dt w1 n1 = tz_dt w2 n2
   <-> replace_microsecond n1 0 = replace_microsecond n2 0
       /\ gmtoff w1 = gmtoff w2).
Proof.
  intros Hv1 Hv2 Ho1 Ho2. unfold tz_dt. split.
  - intros Heq.
    pose proof (fromisoformat_isoformat n1 (gmtoff w1) Hv1 Ho1) as H1.
    pose proof (fromisoformat_isoformat n2 (gmtoff w2) Hv2 Ho2) as H2.
    rewrite Heq, H2 in H1. injection H1 as Hy Hm Hd Hh Hmi Hs Hoff.
    split; [|congruence].
    unfold valid_naive in Hv1, Hv2.
    apply andb_true_iff in Hv1 as [_ Hz1]. apply andb_true_iff in Hv2 as [_ Hz2].
    apply bool_decide_eq_true_1 in Hz1. apply bool_decide_eq_true_1 in Hz2.
    unfold replace_microsecond. congruence.
  - intros [Hr ->]. rewrite Hr. reflexivity.
Qed.

Lemma stamp_determines_second_and_offset_witness :
  tz_dt world_main sample_clock
  = tz_dt world_no_git (replace_microsecond sample_clock 999999).
Proof.
  apply (stamp_determines_second_and_offset world_main world_no_git
           sample_clock (replace_microsecond sample_clock 999999)
           eq_refl eq_refl eq_refl eq_refl).
  split; reflexivity.
Defined.
